(** * Launch resolution of the Motoko editor extension

    Shallow embedding of the two variants of the extension entry point:
    - [Lean]     : src/src/extension.ts   (dfx discovered through [which]);
    - [Extended] : src/unnamed/part_000   (standalone binary, interface
                   staging, vessel package sources).

    The code is effectful: it reads and writes the file system, asks the user
    through editor prompts, and starts a language client.  It is embedded in a
    state-and-exception monad over an explicit [State] (file system, current
    client, chronological log of observable actions), with everything the code
    only reads (settings, workspace folders, the user's answers, host library
    functions) collected in an [Env]. *)

From Stdlib Require Import Ascii.
From stdpp Require Import gmap strings list fin_maps.

(** ** JavaScript strings *)

(** [s.slice(n)] for a non-negative [n]: the string without its first [n]
    code units, empty when [s] is shorter. *)
Fixpoint slice (n : nat) (s : string) : string :=
  match n, s with
  | S n', String _ s' => slice n' s'
  | _, _ => s
  end.

(** [s.split(sep)] for a one-character separator: cut at every occurrence,
    keeping empty pieces; the empty string gives one empty piece. *)
Fixpoint split (sep : ascii) (s : string) : list string :=
  match s with
  | EmptyString => [EmptyString]
  | String c s' =>
      if decide (c = sep) then EmptyString :: split sep s'
      else match split sep s' with
           | t :: ts => String c t :: ts
           | [] => [String c EmptyString]
           end
  end.

Definition space : ascii := " "%char.

(** Truthiness of a [string | undefined] value: [if (x)]. *)
Definition truthy (x : option string) : bool :=
  match x with
  | Some (String _ _) => true
  | _ => false
  end.

(** ** JavaScript objects used as records and maps *)

(** An object used as a map is the list of its own properties in the order
    [Object.keys] enumerates them. *)
Definition JsObject (V : Type) : Type := list (string * V).

Definition Object_keys {V} (o : JsObject V) : list string := o.*1.

Definition Object_entries {V} (o : JsObject V) : list (string * V) := o.

(** The own property [k] of [o], [None] when [o] has no own property of
    that name. *)
Fixpoint get_property {V} (o : JsObject V) (k : string) : option V :=
  match o with
  | [] => None
  | (k', v) :: o' => if decide (k' = k) then Some v else get_property o' k
  end.

(** The names every object inherits from [Object.prototype]: reading one of
    them from an object that has no own property of that name gives the
    inherited function (for [__proto__], the prototype itself). *)
Definition Object_prototype_names : list string :=
  ["constructor"; "__defineGetter__"; "__defineSetter__"; "hasOwnProperty";
   "__lookupGetter__"; "__lookupSetter__"; "isPrototypeOf";
   "propertyIsEnumerable"; "toString"; "valueOf"; "__proto__";
   "toLocaleString"].

Definition inherited (k : string) : bool :=
  bool_decide (k ∈ Object_prototype_names).

(** The value of [o[k]]: an own property, else a property inherited from
    [Object.prototype], else [undefined]. *)
Inductive Member (V : Type) :=
  | OwnValue (v : V)
  | InheritedValue
  | NoValue.
Arguments OwnValue {V} v.
Arguments InheritedValue {V}.
Arguments NoValue {V}.

Definition member {V} (o : JsObject V) (k : string) : Member V :=
  match get_property o k with
  | Some v => OwnValue v
  | None => if inherited k then InheritedValue else NoValue
  end.

Record DfxCanister := { main : string }.

Record DfxConfig := { canisters : JsObject DfxCanister }.

Record DfxManifestCanister := { candid_path : string; canister_id : string }.

Record DfxCanisterManifest :=
  { manifest_canisters : JsObject DfxManifestCanister }.

(** ** Errors, results and the monad *)

Inductive JsError :=
  | TypeError
  | SyntaxError
  | SystemError (code : string)
  | ExecError
  | Error (message : string).

Inductive Result (A : Type) :=
  | Ok (a : A)
  | Throw (e : JsError).
Arguments Ok {A} a.
Arguments Throw {A} e.

(** An element of an argument array: a string, or [undefined] where the
    code put the value of a property that does not exist. *)
Inductive Arg :=
  | Str (s : string)
  | Undefined.

Definition Args : Type := list Arg.

(** An array of strings as an argument array. *)
Definition strings (l : list string) : Args := map Str l.
#[warning="-uniform-inheritance"] Coercion strings : list >-> Args.

(** The [{ command, args }] object handed to the language client as both
    [run] and [debug]. *)
Record LaunchSpec := { command : string; args : Args }.

Inductive Event :=
  | ClientStop
  | ShowInputBox (prompt : string) (value : option string)
  | ShowQuickPick (items : list string)
  | ShowErrorMessage (message : string)
  | ConsoleLog (items : list string)
  | ConsoleLogError (e : JsError)
  | ClientStart (spec : LaunchSpec)
  | UnhandledRejection (e : JsError).

Inductive node :=
  | Dir
  | File (readable : bool) (text : string).

Record State := {
  fs : gmap string node;
  client : option LaunchSpec;
  log : list Event
}.

Definition M (A : Type) : Type := State → Result A * State.

Definition ret {A} (a : A) : M A := fun st => (Ok a, st).

Definition throw {A} (e : JsError) : M A := fun st => (Throw e, st).

Definition bind {A B} (m : M A) (k : A → M B) : M B :=
  fun st =>
    match m st with
    | (Ok a, st') => k a st'
    | (Throw e, st') => (Throw e, st')
    end.

Notation "x <- c ;; k" := (bind c (fun x => k))
  (at level 100, c at next level, right associativity).
Notation "c ;;; k" := (bind c (fun _ => k))
  (at level 100, right associativity).

(** [try { body } catch (e) { handler e }]: what the body did to the state
    before throwing stays done. *)
Definition try_catch {A} (body : M A) (handler : JsError → M A) : M A :=
  fun st =>
    match body st with
    | (Ok a, st') => (Ok a, st')
    | (Throw e, st') => handler e st'
    end.

Definition emit (e : Event) : M unit :=
  fun st => (Ok tt, {| fs := fs st; client := client st; log := log st ++ [e] |}).

(** [promise.then(cb)] for a promise that resolves to [answer].  The callback
    runs later on the same event thread; an exception in it rejects the
    derived promise, which nothing handles, and never reaches the code that
    called [then]. *)
Definition then_ {A} (answer : A) (cb : A → M unit) : M unit :=
  try_catch (cb answer) (fun e => emit (UnhandledRejection e)).

(** ** The host: settings, editor and libraries *)

Record Config := {
  standaloneBinary : string;
  standaloneArguments : string;
  canister : string;
  dfx : string
}.

(** Result of [JSON.parse] read at a declared TypeScript type. *)
Inductive Parsed (A : Type) :=
  | ParseError
  | ParsedNull
  | ParsedValue (a : A).
Arguments ParseError {A}.
Arguments ParsedNull {A}.
Arguments ParsedValue {A} a.

(** How a child process run by [execSync] ended. *)
Inductive ExecOutcome :=
  | SpawnFailed
  | Exited (status : nat) (stdout : string).

Record Env := {
  config : Config;
  (** [workspace.workspaceFolders]: the folders' [uri.fsPath]. *)
  workspaceFolders : option (list string);
  (** [window.activeTextEditor?.document?.fileName]. *)
  activeDocument : option string;
  (** What the user answers to [showInputBox] (given prompt and initial
      value) and to [showQuickPick] (given the items); [None] when the
      prompt is dismissed. *)
  inputBoxAnswer : string → option string → option string;
  quickPickAnswer : list string → option string;
  (** [path.join]. *)
  path_join : list string → string;
  (** The proper ancestors of a path, outermost first: what iterating
      [path.dirname] yields. *)
  path_ancestors : string → list string;
  (** [JSON.parse] of a file's text, read at the type the code declares for
      the result. *)
  JSON_parse_DfxConfig : string → Parsed DfxConfig;
  JSON_parse_DfxCanisterManifest : string → Parsed DfxCanisterManifest;
  (** [which.sync]: [None] when it throws. *)
  which_sync : string → option string;
  (** The child process started by [execSync cmd { cwd }]. *)
  run_process : string → string → ExecOutcome;
  (** Whether the process may create or overwrite the entry at a path. *)
  writable : string → bool
}.

(** ** File system and process primitives *)

Definition set_fs (f : gmap string node) (st : State) : State :=
  {| fs := f; client := client st; log := log st |}.

Definition existsSync (p : string) : M bool :=
  fun st => (Ok (bool_decide (is_Some (fs st !! p))), st).

Definition readFileSync (p : string) : M string :=
  fun st =>
    match fs st !! p with
    | Some (File true text) => (Ok text, st)
    | Some (File false _) => (Throw (SystemError "EACCES"), st)
    | Some Dir => (Throw (SystemError "EISDIR"), st)
    | None => (Throw (SystemError "ENOENT"), st)
    end.

(** One directory of a recursive [mkdir]: an existing directory is left
    alone, a missing one is created if that is permitted, and a file in the
    way is the error [blocked]. *)
Definition mkdir_one (env : Env) (blocked : string) (p : string) : M unit :=
  fun st =>
    match fs st !! p with
    | Some Dir => (Ok tt, st)
    | Some (File _ _) => (Throw (SystemError blocked), st)
    | None =>
        if writable env p then (Ok tt, set_fs (<[p := Dir]> (fs st)) st)
        else (Throw (SystemError "EACCES"), st)
    end.

(** The directories above [p], outermost first, then [p] itself: a file
    where an ancestor should be is ENOTDIR, a file at [p] is EEXIST. *)
Fixpoint mkdir_chain (env : Env) (above : list string) (p : string) : M unit :=
  match above with
  | [] => mkdir_one env "EEXIST" p
  | q :: rest => mkdir_one env "ENOTDIR" q ;;; mkdir_chain env rest p
  end.

(** [fs.mkdirSync(p, { recursive: true })]: the missing ancestors of [p] are
    created from the outermost inwards, then [p] itself; what was created
    before a failure stays. *)
Definition mkdirSync (env : Env) (p : string) : M unit :=
  mkdir_chain env (path_ancestors env p) p.

Definition copyFileSync (env : Env) (src dst : string) : M unit :=
  fun st =>
    match fs st !! src with
    | Some (File true text) =>
        match fs st !! dst with
        | Some Dir => (Throw (SystemError "EISDIR"), st)
        | _ =>
            if writable env dst
            then (Ok tt, set_fs (<[dst := File true text]> (fs st)) st)
            else (Throw (SystemError "EACCES"), st)
        end
    | Some (File false _) => (Throw (SystemError "EACCES"), st)
    | Some Dir => (Throw (SystemError "EISDIR"), st)
    | None => (Throw (SystemError "ENOENT"), st)
    end.

(** [execSync(cmd, { cwd }).toString("utf8")]: throws when the process could
    not be spawned or exits with a non-zero status. *)
Definition execSync (env : Env) (cmd cwd : string) : M string :=
  match run_process env cmd cwd with
  | Exited 0 stdout => ret stdout
  | _ => throw ExecError
  end.

(** [wsf[0].uri.fsPath]: a [TypeError] on an empty array. *)
Definition first_folder (wsf : list string) : M string :=
  match wsf with
  | ws :: _ => ret ws
  | [] => throw TypeError
  end.

(** ** Code shared by both variants *)

(** [isDfxProject] (extension.ts 95-110, part_000 188-203). *)
Definition isDfxProject (env : Env) : M (option DfxConfig) :=
  match workspaceFolders env with
  | Some wsf =>
      try_catch
        (ws <- first_folder wsf ;;
         text <- readFileSync (path_join env [ws; "dfx.json"]) ;;
         match JSON_parse_DfxConfig env text with
         | ParsedValue v => ret (Some v)
         | ParsedNull => ret None
         | ParseError => throw SyntaxError
         end)
        (fun _ => ret None)
  | None => ret None
  end.

(** [launchClient] (extension.ts 58-78, part_000 122-142): the module
    variable [client] is replaced, then the client is started. *)
Definition launchClient (serverOptions : LaunchSpec) : M unit :=
  fun st =>
    (Ok tt, {| fs := fs st; client := Some serverOptions;
               log := log st ++ [ClientStart serverOptions] |}).

Definition showInputBox (env : Env) (prompt : string) (value : option string)
  : M (option string) :=
  emit (ShowInputBox prompt value) ;;; ret (inputBoxAnswer env prompt value).

Definition showQuickPick (env : Env) (items : list string) : M (option string) :=
  emit (ShowQuickPick items) ;;; ret (quickPickAnswer env items).

Definition showErrorMessage (message : string) : M unit :=
  emit (ShowErrorMessage message).

Definition entry_prompt : string :=
  "We failed to detect a dfx project for this Motoko file. What file do you want to use as an entry point?".

(** [deactivate] (extension.ts 80-85, part_000 144-149): [None] stands for
    [undefined], [Some tt] for the promise of [client.stop()]. *)
Definition deactivate : M (option unit) :=
  fun st =>
    match client st with
    | None => ret None st
    | Some _ => (emit ClientStop ;;; ret (Some tt)) st
    end.

(** ** Variant of src/src/extension.ts *)

Module Lean.

(** The template literal shown by [getDfx] (line 119). *)
Definition locate_failure (dfx : string) : string :=
  "Failed to locate dfx at " +:+ dfx +:+
  " check that dfx is installed or try changing motoko.dfx in settings".

(** [getDfx] (lines 112-126). *)
Definition getDfx (env : Env) : M string :=
  let dfx := dfx (config env) in
  try_catch
    (match which_sync env dfx with
     | Some found => ret found
     | None => throw (Error ("not found: " +:+ dfx))
     end)
    (fun _ =>
       found <- existsSync dfx ;;
       if negb found then
         showErrorMessage (locate_failure dfx) ;;;
         throw (Error "Failed to locate dfx")
       else ret dfx).

(** The closure [start] of [launchDfxProject] (lines 39-45). *)
Definition start (env : Env) (canister : string) : M unit :=
  command <- getDfx env ;;
  let serverCommand :=
    {| command := command; args := ["_language-service"; canister] |} in
  launchClient serverCommand.

(** [launchDfxProject] (lines 38-56). *)
Definition launchDfxProject (env : Env) (dfxConfig : DfxConfig) : M unit :=
  let canister := canister (config env) in
  let canisters := Object_keys (canisters dfxConfig) in
  if negb (bool_decide (canister = EmptyString)) then start env canister
  else
    match canisters with
    | [only] => start env only
    | _ =>
        c <- showQuickPick env canisters ;;
        then_ c (fun c =>
          match c with
          | Some picked => if truthy c then start env picked else ret tt
          | None => ret tt
          end)
    end.

(** Lines 22-35 of [activate]: no project was detected. *)
Definition promptEntryPoint (env : Env) : M unit :=
  let currentDocument := activeDocument env in
  entryPoint <- showInputBox env entry_prompt currentDocument ;;
  then_ entryPoint (fun entryPoint =>
    match entryPoint with
    | Some file =>
        if truthy entryPoint then
          let serverCommand :=
            {| command := standaloneBinary (config env);
               args := ["--canister-main"; file]
                         ++ split space (standaloneArguments (config env)) |} in
          launchClient serverCommand
        else ret tt
    | None => ret tt
    end).

(** [activate] (lines 16-36). *)
Definition activate (env : Env) : M unit :=
  dfxConfig <- isDfxProject env ;;
  match dfxConfig with
  | Some dfxConfig => launchDfxProject env dfxConfig
  | None => promptEntryPoint env
  end.

End Lean.

(** ** Variant of src/unnamed/part_000 *)

Module Extended.

Record CanisterMapping := { alias : string; id : string }.

Record IdlFiles := {
  idlPath : string;
  canisterMappings : list CanisterMapping
}.

(** [getOrCreateIDLPath] (lines 50-61). *)
Definition getOrCreateIDLPath (env : Env) : M (option string) :=
  try_catch
    (match workspaceFolders env with
     | None => ret None
     | Some wsf =>
         ws <- first_folder wsf ;;
         let idlPath := path_join env [ws; ".vscode"; "idl"] in
         found <- existsSync idlPath ;;
         if found then ret (Some idlPath)
         else mkdirSync env idlPath ;;; ret (Some idlPath)
     end)
    (fun _ => ret None).

(** [getDfxManifest] (lines 168-186). *)
Definition getDfxManifest (env : Env) : M (option DfxCanisterManifest) :=
  match workspaceFolders env with
  | Some wsf =>
      try_catch
        (ws <- first_folder wsf ;;
         text <- readFileSync
                   (path_join env [ws; "canisters"; "canister_manifest.json"]) ;;
         match JSON_parse_DfxCanisterManifest env text with
         | ParsedValue res => ret (Some res)
         | ParsedNull => ret None
         | ParseError => throw SyntaxError
         end)
        (fun _ => ret None)
  | None => ret None
  end.

(** The [for ... of Object.entries(...)] loop of [copyIDLFiles]
    (lines 73-79), with the array it pushes to. *)
Fixpoint copy_entries (env : Env) (idlPath : string)
    (entries : list (string * DfxManifestCanister))
    (canisterMappings : list CanisterMapping) : M (list CanisterMapping) :=
  match entries with
  | [] => ret canisterMappings
  | (alias, info) :: rest =>
      let canisterId := slice 3 (canister_id info) in
      let canisterMappings :=
        canisterMappings ++ [{| alias := alias; id := canister_id info |}] in
      emit (ConsoleLog [canister_id info; canisterId]) ;;;
      copyFileSync env (candid_path info)
        (path_join env [idlPath; canisterId +:+ ".did"]) ;;;
      copy_entries env idlPath rest canisterMappings
  end.

(** [copyIDLFiles] (lines 63-81). *)
Definition copyIDLFiles (env : Env) : M (option IdlFiles) :=
  idlPath <- getOrCreateIDLPath env ;;
  match idlPath with
  | None => ret None
  | Some idlPath =>
      canisterManifest <- getDfxManifest env ;;
      match canisterManifest with
      | None => ret None
      | Some canisterManifest =>
          canisterMappings <-
            copy_entries env idlPath
              (Object_entries (manifest_canisters canisterManifest)) [] ;;
          ret (Some {| idlPath := idlPath;
                       canisterMappings := canisterMappings |})
      end
  end.

(** The [idlArgs] array built in [start] (lines 85-95). *)
Definition idlArgs_of (idlFiles : option IdlFiles) : list string :=
  match idlFiles with
  | Some idlFiles =>
      ["--actor-idl"; idlPath idlFiles]
        ++ flat_map (fun mapping => ["--actor-alias"; alias mapping; id mapping])
             (canisterMappings idlFiles)
  | None => []
  end.

(** The closure [start] of [launchDfxProject] (lines 84-104).
    [dfxConfig.canisters[canister].main] is the target's main file when the
    object has that target, [undefined] when [canister] names a property
    inherited from [Object.prototype] (none of them has a property [main]),
    and a [TypeError] when [dfxConfig.canisters[canister]] is [undefined]. *)
Definition start (env : Env) (dfxConfig : DfxConfig) (canister : string)
  : M unit :=
  idlFiles <- copyIDLFiles env ;;
  let idlArgs := idlArgs_of idlFiles in
  entry <- match member (canisters dfxConfig) canister with
           | OwnValue target => ret (Str (main target))
           | InheritedValue => ret Undefined
           | NoValue => throw TypeError
           end ;;
  let args := [Str "--canister-main"; entry] ++ strings idlArgs in
  let serverCommand :=
    {| command := standaloneBinary (config env); args := args |} in
  launchClient serverCommand.

(** [launchDfxProject] (lines 83-120). *)
Definition launchDfxProject (env : Env) (dfxConfig : DfxConfig) : M unit :=
  let canister := canister (config env) in
  let canisters := Object_keys (canisters dfxConfig) in
  if negb (bool_decide (canister = EmptyString)) then start env dfxConfig canister
  else
    match canisters with
    | [only] => start env dfxConfig only
    | _ =>
        c <- showQuickPick env canisters ;;
        then_ c (fun c =>
          match c with
          | Some picked =>
              if truthy c then start env dfxConfig picked else ret tt
          | None => ret tt
          end)
    end.

(** [vesselArgs] (lines 221-233). *)
Definition vesselArgs (env : Env) : M (list string) :=
  try_catch
    (ws <- match workspaceFolders env with
           | Some wsf => first_folder wsf
           | None => throw TypeError
           end ;;
     found <- existsSync (path_join env [ws; "vessel.json"]) ;;
     if negb found then ret []
     else
       flags <- execSync env "vessel sources" ws ;;
       ret (split space flags))
    (fun err => emit (ConsoleLogError err) ;;; ret []).

(** Lines 34-47 of [startServer]: no project was detected. *)
Definition promptEntryPoint (env : Env) : M unit :=
  let currentDocument := activeDocument env in
  entryPoint <- showInputBox env entry_prompt currentDocument ;;
  then_ entryPoint (fun entryPoint =>
    match entryPoint with
    | Some file =>
        if truthy entryPoint then
          vessel <- vesselArgs env ;;
          let serverCommand :=
            {| command := standaloneBinary (config env);
               args := (["--canister-main"; file] ++ vessel)
                         ++ split space (standaloneArguments (config env)) |} in
          launchClient serverCommand
        else ret tt
    | None => ret tt
    end).

(** [if (client) client.stop()] (lines 25-27). *)
Definition stopClient : M unit :=
  fun st =>
    match client st with
    | Some _ => emit ClientStop st
    | None => ret tt st
    end.

(** [startServer] (lines 24-48). *)
Definition startServer (env : Env) : M unit :=
  stopClient ;;;
  dfxConfig <- isDfxProject env ;;
  match dfxConfig with
  | Some dfxConfig => launchDfxProject env dfxConfig
  | None => promptEntryPoint env
  end.

(** [activate] (lines 17-22): registers [startServer] as the command
    motoko.startService and runs it once. *)
Definition activate (env : Env) : M unit := startServer env.

End Extended.

(** ** Concrete worlds

    A POSIX-like host with the workspace at /ws, used to run the code on
    concrete inputs.  Its [JSON.parse] knows the few texts the examples put
    into files; the texts are written without quotation marks. *)

Module World.

Fixpoint join (segments : list string) : string :=
  match segments with
  | [] => EmptyString
  | [last] => last
  | segment :: rest => segment +:+ "/" +:+ join rest
  end.

(** The proper ancestors of an absolute path, the root first. *)
Fixpoint ancestors_of (above : string) (segments : list string) : list string :=
  match segments with
  | [] | [_] => []
  | segment :: rest =>
      let here := above +:+ "/" +:+ segment in
      here :: ancestors_of here rest
  end.

Definition ancestors (p : string) : list string :=
  match split "/"%char p with
  | root :: segments =>
      if decide (root = EmptyString) then "/" :: ancestors_of EmptyString segments
      else []
  | [] => []
  end.

Definition one_target : DfxConfig :=
  {| canisters := [("main", {| main := "src/main.mo" |})] |}.

Definition two_targets : DfxConfig :=
  {| canisters := [("main", {| main := "src/main.mo" |});
                   ("assets", {| main := "src/assets.mo" |})] |}.

Definition one_interface (identifier : string) : DfxCanisterManifest :=
  {| manifest_canisters :=
       [("main", {| candid_path := "/ws/canisters/main/main.did";
                    canister_id := identifier |})] |}.

Definition parse_config (text : string) : Parsed DfxConfig :=
  if decide (text = "{canisters:{main:{main:src/main.mo}}}")
  then ParsedValue one_target
  else if decide (text = "{canisters:{main:{main:src/main.mo},assets:{main:src/assets.mo}}}")
  then ParsedValue two_targets
  else if decide (text = "null") then ParsedNull
  else ParseError.

Definition parse_manifest (text : string) : Parsed DfxCanisterManifest :=
  if decide (text = "{canisters:{main:{candid_path:/ws/canisters/main/main.did,canister_id:ic:ABCD}}}")
  then ParsedValue (one_interface "ic:ABCD")
  else if decide (text = "{canisters:{main:{candid_path:/ws/canisters/main/main.did,canister_id:}}}")
  then ParsedValue (one_interface EmptyString)
  else if decide (text = "null") then ParsedNull
  else ParseError.

Definition settings (target : string) : Config :=
  {| standaloneBinary := "mo-ide";
     standaloneArguments := "--a --b";
     canister := target;
     dfx := "dfx" |}.

(** The user accepts the proposed entry point unchanged and picks the
    target [pick] when asked. *)
Definition host (target : string) (pick : option string)
    (lookup : option string) (vessel : ExecOutcome) : Env :=
  {| config := settings target;
     workspaceFolders := Some ["/ws"];
     activeDocument := Some "/tmp/foo.mo";
     inputBoxAnswer := fun _ value => value;
     quickPickAnswer := fun _ => pick;
     path_join := join;
     path_ancestors := ancestors;
     JSON_parse_DfxConfig := parse_config;
     JSON_parse_DfxCanisterManifest := parse_manifest;
     which_sync := fun _ => lookup;
     run_process := fun _ _ => vessel;
     writable := fun _ => true |}.

Definition disk (files : list (string * node)) : State :=
  {| fs := list_to_map files; client := None; log := [] |}.

Definition project_one : list (string * node) :=
  [("/ws/dfx.json", File true "{canisters:{main:{main:src/main.mo}}}")].

Definition project_two : list (string * node) :=
  [("/ws/dfx.json",
    File true "{canisters:{main:{main:src/main.mo},assets:{main:src/assets.mo}}}")].

Definition interface_manifest (text : string) : list (string * node) :=
  [("/ws/canisters/canister_manifest.json", File true text)].

Definition artifact : list (string * node) :=
  [("/ws/canisters/main/main.did", File true "service : {}")].

End World.

(** ** Observations on the log *)

Definition is_prompt (e : Event) : bool :=
  match e with
  | ShowInputBox _ _ | ShowQuickPick _ => true
  | _ => false
  end.

Definition is_launch (e : Event) : bool :=
  match e with
  | ClientStart _ => true
  | _ => false
  end.

Definition is_console (e : Event) : bool :=
  match e with
  | ConsoleLog _ | ConsoleLogError _ => true
  | _ => false
  end.

(** [emits_only P m]: whatever the state, running [m] only appends to the
    log, and every appended event satisfies [P]. *)
Definition emits_only {A} (P : Event → Prop) (m : M A) : Prop :=
  ∀ st, ∃ evs, log (m st).2 = log st ++ evs ∧ Forall P evs.

(** The state of the project manifest <workspace>/dfx.json. *)
Inductive ManifestStatus :=
  | NoFolder
  | FileMissing
  | FileUnreadable
  | MalformedJson
  | NullJson
  | Manifest (dfxConfig : DfxConfig).

Definition manifest_status (env : Env) (st : State) : ManifestStatus :=
  match workspaceFolders env with
  | Some (ws :: _) =>
      match fs st !! path_join env [ws; "dfx.json"] with
      | None => FileMissing
      | Some Dir | Some (File false _) => FileUnreadable
      | Some (File true text) =>
          match JSON_parse_DfxConfig env text with
          | ParseError => MalformedJson
          | ParsedNull => NullJson
          | ParsedValue dfxConfig => Manifest dfxConfig
          end
      end
  | _ => NoFolder
  end.

(** The interface manifest on disk: what
    <first workspace folder>/canisters/canister_manifest.json holds when it
    is a readable file that [JSON.parse] maps to a value. *)
Definition interface_manifest_on_disk (env : Env) (st : State)
    : option DfxCanisterManifest :=
  match workspaceFolders env with
  | Some (ws :: _) =>
      match fs st !! path_join env [ws; "canisters"; "canister_manifest.json"] with
      | Some (File true text) =>
          match JSON_parse_DfxCanisterManifest env text with
          | ParsedValue canisterManifest => Some canisterManifest
          | _ => None
          end
      | _ => None
      end
  | _ => None
  end.

(** Package-source discovery fails: no workspace folder, no vessel.json,
    or the listing command cannot be spawned or exits with a non-zero
    status. *)
Definition vessel_discovery_fails (env : Env) (st : State) : bool :=
  match workspaceFolders env with
  | Some (ws :: _) =>
      match fs st !! path_join env [ws; "vessel.json"] with
      | None => true
      | Some _ =>
          match run_process env "vessel sources" ws with
          | Exited 0 _ => false
          | _ => true
          end
      end
  | _ => true
  end.

(** Whether a string contains a given character. *)
Fixpoint has_char (c : ascii) (s : string) : bool :=
  match s with
  | EmptyString => false
  | String c' s' => bool_decide (c' = c) || has_char c s'
  end.

(** [pieces.join(sep)] for a one-character separator. *)
Fixpoint join_pieces (sep : ascii) (pieces : list string) : string :=
  match pieces with
  | [] => EmptyString
  | [last] => last
  | piece :: rest => piece +:+ String sep (join_pieces sep rest)
  end.

(** The quotation mark, and the text [--flag "a b"]. *)
Definition quote : ascii := "034"%char.

Definition quoted_argument : string :=
  "--flag " +:+ String quote ("a b" +:+ String quote EmptyString).

(** An event that is no prompt and that, when it starts a client, starts it
    on a launch specification satisfying [Q]. *)
Definition launch_event (Q : LaunchSpec → Prop) (e : Event) : Prop :=
  is_prompt e = false ∧ ∀ spec, e = ClientStart spec → Q spec.

(** The launch specification of a target, in each variant. *)
Definition Lean_spec_of (target : string) (spec : LaunchSpec) : Prop :=
  args spec = ["_language-service"; target].

Definition Extended_spec_of (env : Env) (dfxConfig : DfxConfig)
    (target : string) (spec : LaunchSpec) : Prop :=
  ∃ descriptor extra,
    get_property (canisters dfxConfig) target = Some descriptor
    ∧ command spec = standaloneBinary (config env)
    ∧ args spec = "--canister-main" :: main descriptor :: extra.

(** ** Runs as sequences of steps

    Every change the code makes to the state is one of four steps: a log
    entry, the creation of a directory where nothing is, a copy, and the
    start of a client. *)

Inductive Step :=
  | StepEmit (e : Event)
  | StepMkdir (p : string)
  | StepCopy (dst text : string)
  | StepLaunch (spec : LaunchSpec).

Definition apply_step (st : State) (s : Step) : State :=
  match s with
  | StepEmit e =>
      {| fs := fs st; client := client st; log := log st ++ [e] |}
  | StepMkdir p =>
      match fs st !! p with
      | None => set_fs (<[p := Dir]> (fs st)) st
      | Some _ => st
      end
  | StepCopy dst text => set_fs (<[dst := File true text]> (fs st)) st
  | StepLaunch spec =>
      {| fs := fs st; client := Some spec;
         log := log st ++ [ClientStart spec] |}
  end.

Definition apply_steps (steps : list Step) (st : State) : State :=
  foldl apply_step st steps.

(** [performs K Q m]: from any state, [m] changes the state by steps that all
    satisfy [K], and a value it returns satisfies [Q]. *)
Definition performs {A} (K : Step → Prop) (Q : A → Prop) (m : M A) : Prop :=
  ∀ st, ∃ steps,
    Forall K steps
    ∧ (m st).2 = apply_steps steps st
    ∧ ∀ a, (m st).1 = Ok a → Q a.

(** <first workspace folder>/.vscode/idl, when there is a workspace folder. *)
Definition scratch_dir (env : Env) : option string :=
  match workspaceFolders env with
  | Some (ws :: _) => Some (path_join env [ws; ".vscode"; "idl"])
  | _ => None
  end.

(** The scratch directory preceded by its ancestors: the directories a
    recursive [mkdir] of it may create. *)
Definition scratch_chain (env : Env) (dir : string) : list string :=
  path_ancestors env dir ++ [dir].

(** Steps that start no client, neither really nor in the log. *)
Definition no_launch (s : Step) : Prop :=
  match s with
  | StepEmit e => is_launch e = false
  | StepLaunch _ => False
  | _ => True
  end.

(** The side steps of the lean variant: it only logs, and never logs the
    stop or the start of a client. *)
Definition lean_step (s : Step) : Prop :=
  match s with
  | StepEmit e => is_launch e = false ∧ e ≠ ClientStop
  | _ => False
  end.

(** The side steps of interface staging: console lines, the creation of the
    scratch directory or of one of its ancestors, and copies to .did files
    joined to the scratch directory. *)
Definition staging_step (env : Env) (s : Step) : Prop :=
  match s with
  | StepEmit e => is_console e = true
  | StepMkdir p => ∃ dir, scratch_dir env = Some dir ∧ p ∈ scratch_chain env dir
  | StepCopy dst _ =>
      ∃ dir name, scratch_dir env = Some dir
                  ∧ dst = path_join env [dir; name +:+ ".did"]
  | StepLaunch _ => False
  end.

(** The side steps of the extended variant after it has stopped the
    current client: staging steps and log entries other than the stop or
    the start of a client. *)
Definition extended_step (env : Env) (s : Step) : Prop :=
  match s with
  | StepEmit e => is_launch e = false ∧ e ≠ ClientStop
  | StepLaunch _ => False
  | _ => staging_step env s
  end.

(** The side steps of a whole [startServer]. *)
Definition restart_step (env : Env) (s : Step) : Prop :=
  s = StepEmit ClientStop ∨ extended_step env s.

(** [runs K m]: from any state, [m] changes the state by side steps that all
    satisfy [K], after which it either does nothing more, or starts a client
    as its very last step and returns normally. *)
Definition runs {A} (K : Step → Prop) (m : M A) : Prop :=
  ∀ st, ∃ steps,
    Forall K steps
    ∧ ((m st).2 = apply_steps steps st
       ∨ ∃ spec a,
           m st = (Ok a, apply_steps (steps ++ [StepLaunch spec]) st)).

(** What a step appends to the log. *)
Definition step_events (s : Step) : list Event :=
  match s with
  | StepEmit e => [e]
  | StepLaunch spec => [ClientStart spec]
  | _ => []
  end.

(** [starts_at_most_once m]: whatever the state, a run of [m] starts no
    client and leaves [client] alone, or starts exactly one: then the start
    is the last entry it logs, [client] is the client started, and the run
    returns normally. *)
Definition starts_at_most_once {A} (m : M A) : Prop :=
  ∀ st, ∃ evs,
    log (m st).2 = log st ++ evs
    ∧ ((Forall (λ e, is_launch e = false) evs ∧ client (m st).2 = client st)
       ∨ (∃ before spec a,
            evs = before ++ [ClientStart spec]
            ∧ Forall (λ e, is_launch e = false) before
            ∧ client (m st).2 = Some spec
            ∧ (m st).1 = Ok a)).

(** The launch specification of the last client started according to a
    log. *)
Fixpoint last_started (events : list Event) : option LaunchSpec :=
  match events with
  | [] => None
  | e :: rest =>
      match last_started rest with
      | Some spec => Some spec
      | None => match e with ClientStart spec => Some spec | _ => None end
      end
  end.

(** The module variable [client] refers to the last client started. *)
Definition client_tracks_log (st : State) : Prop :=
  client st = last_started (log st).

(** Number of occurrences of a character. *)
Fixpoint count_char (c : ascii) (s : string) : nat :=
  match s with
  | EmptyString => 0
  | String c' s' => (if decide (c' = c) then 1 else 0) + count_char c s'
  end.

(** Where the staging loop copies an entry's artifact to. *)
Definition staged_path (env : Env) (idlPath : string)
    (entry : string * DfxManifestCanister) : string :=
  path_join env [idlPath; slice 3 (canister_id entry.2) +:+ ".did"].

(** * Properties *)

(** ** The monad and the log *)

Section Emits.
Context {A B : Type} (P : Event → Prop).

Lemma emits_only_ret (a : A) : emits_only P (ret a).
Proof. intros st. exists []. by rewrite app_nil_r. Qed.

Lemma emits_only_throw (e : JsError) : emits_only P (@throw A e).
Proof. intros st. exists []. by rewrite app_nil_r. Qed.

Lemma emits_only_bind (m : M A) (k : A → M B) :
  emits_only P m → (∀ a, emits_only P (k a)) → emits_only P (bind m k).
Proof.
  intros Hm Hk st. unfold bind.
  destruct (Hm st) as (evs & Hlog & Hevs).
  destruct (m st) as [[a|e] st1]; simpl in *.
  - destruct (Hk a st1) as (evs' & Hlog' & Hevs').
    exists (evs ++ evs'). rewrite Hlog', Hlog, <-app_assoc.
    split; [done | by apply Forall_app].
  - by exists evs.
Qed.

Lemma emits_only_try_catch (body : M A) (handler : JsError → M A) :
  emits_only P body → (∀ e, emits_only P (handler e)) →
  emits_only P (try_catch body handler).
Proof.
  intros Hm Hk st. unfold try_catch.
  destruct (Hm st) as (evs & Hlog & Hevs).
  destruct (body st) as [[a|e] st1]; simpl in *.
  - by exists evs.
  - destruct (Hk e st1) as (evs' & Hlog' & Hevs').
    exists (evs ++ evs'). rewrite Hlog', Hlog, <-app_assoc.
    split; [done | by apply Forall_app].
Qed.

Lemma emits_only_pure (m : M A) :
  (∀ st, (m st).2 = st) → emits_only P m.
Proof. intros Hm st. exists []. by rewrite Hm, app_nil_r. Qed.
End Emits.

Lemma emits_only_emit (P : Event → Prop) (e : Event) :
  P e → emits_only P (emit e).
Proof. intros He st. exists [e]. split; [done | by apply Forall_singleton]. Qed.

Lemma emits_only_then {A} (P : Event → Prop) (answer : A) (cb : A → M unit) :
  (∀ e, P (UnhandledRejection e)) → emits_only P (cb answer) →
  emits_only P (then_ answer cb).
Proof.
  intros Hrej Hcb. apply emits_only_try_catch; [done |].
  intros e. by apply emits_only_emit.
Qed.

Lemma emits_only_impl {A} (P Q : Event → Prop) (m : M A) :
  (∀ e, P e → Q e) → emits_only P m → emits_only Q m.
Proof.
  intros HPQ Hm st. destruct (Hm st) as (evs & Hlog & Hevs).
  exists evs. split; [done |]. by eapply Forall_impl.
Qed.

(** A [then] callback never throws into its caller. *)
Lemma then_returns {A} (answer : A) (cb : A → M unit) (st : State) :
  ∃ st', then_ answer cb st = (Ok tt, st').
Proof.
  unfold then_, try_catch.
  destruct (cb answer st) as [[[]|e] st1]; eauto.
Qed.

(** A [try] whose handler returns always returns. *)
Lemma try_catch_returns {A} (body : M A) (handler : JsError → M A) (st : State) :
  (∀ e st0, ∃ r st', handler e st0 = (Ok r, st')) →
  ∃ r st', try_catch body handler st = (Ok r, st').
Proof.
  intros Hhandler. unfold try_catch.
  destruct (body st) as [[r|e] st1]; [by eexists _, _ | apply Hhandler].
Qed.

(** File-system and process primitives leave the log alone. *)
Lemma existsSync_state (p : string) (st : State) : (existsSync p st).2 = st.
Proof. done. Qed.

Lemma readFileSync_state (p : string) (st : State) : (readFileSync p st).2 = st.
Proof. unfold readFileSync. by repeat case_match. Qed.

Lemma mkdir_one_log (env : Env) (blocked p : string) (st : State) :
  log (mkdir_one env blocked p st).2 = log st.
Proof. unfold mkdir_one. by repeat case_match. Qed.

Lemma mkdir_chain_log (env : Env) (above : list string) (p : string)
    (st : State) :
  log (mkdir_chain env above p st).2 = log st.
Proof.
  revert st. induction above as [|q above IH]; intros st;
    [apply mkdir_one_log |].
  simpl. unfold bind. pose proof (mkdir_one_log env "ENOTDIR" q st) as Hone.
  destruct (mkdir_one env "ENOTDIR" q st) as [[[]|e] st1]; simpl in Hone;
    [by rewrite IH | done].
Qed.

Lemma mkdirSync_log (env : Env) (p : string) (st : State) :
  log (mkdirSync env p st).2 = log st.
Proof. apply mkdir_chain_log. Qed.

Lemma copyFileSync_log (env : Env) (src dst : string) (st : State) :
  log (copyFileSync env src dst st).2 = log st.
Proof. unfold copyFileSync. by repeat case_match. Qed.

Lemma execSync_state (env : Env) (cmd cwd : string) (st : State) :
  (execSync env cmd cwd st).2 = st.
Proof. unfold execSync. by repeat case_match. Qed.

Lemma first_folder_state (wsf : list string) (st : State) :
  (first_folder wsf st).2 = st.
Proof. by destruct wsf. Qed.

Lemma emits_only_quiet {A} (P : Event → Prop) (m : M A) :
  (∀ st, log (m st).2 = log st) → emits_only P m.
Proof. intros Hm st. exists []. by rewrite Hm, app_nil_r. Qed.

Lemma emits_only_launchClient (P : Event → Prop) (spec : LaunchSpec) :
  P (ClientStart spec) → emits_only P (launchClient spec).
Proof. intros He st. exists [ClientStart spec]. split; [done | by apply Forall_singleton]. Qed.

(** ** Project detection *)

(** [isDfxProject] never throws and never changes the state; it yields a
    manifest exactly when dfx.json is readable JSON other than [null]. *)
Lemma isDfxProject_spec (env : Env) (st : State) :
  isDfxProject env st =
    (Ok match manifest_status env st with
        | Manifest dfxConfig => Some dfxConfig
        | _ => None
        end, st).
Proof.
  unfold isDfxProject, manifest_status.
  destruct (workspaceFolders env) as [[|ws rest]|]; try done.
  unfold try_catch, bind, first_folder, ret, readFileSync.
  destruct (fs st !! path_join env [ws; "dfx.json"]) as [[|[] text]|]; try done.
  by destruct (JSON_parse_DfxConfig env text).
Qed.

Lemma manifest_status_stopClient (env : Env) (st : State) :
  manifest_status env (Extended.stopClient st).2 = manifest_status env st.
Proof. unfold Extended.stopClient. by destruct (client st). Qed.

Lemma stopClient_ok (st : State) :
  (Extended.stopClient st).1 = Ok tt.
Proof. unfold Extended.stopClient. by destruct (client st). Qed.

Lemma Lean_promptEntryPoint_returns (env : Env) (st : State) :
  ∃ st', Lean.promptEntryPoint env st = (Ok tt, st').
Proof.
  unfold Lean.promptEntryPoint, showInputBox, bind, emit, ret. simpl.
  apply then_returns.
Qed.

Lemma Extended_promptEntryPoint_returns (env : Env) (st : State) :
  ∃ st', Extended.promptEntryPoint env st = (Ok tt, st').
Proof.
  unfold Extended.promptEntryPoint, showInputBox, bind, emit, ret. simpl.
  apply then_returns.
Qed.

(** C3.  Whenever dfx.json is missing, unreadable or not JSON, the detector
    returns [null] (it does not throw and leaves the state alone), and both
    variants continue with the entry-point prompt of the manifest-absent
    path and return normally to their caller. *)
Theorem manifest_faults_fall_back (env : Env) (st : State) :
  manifest_status env st = FileMissing
  ∨ manifest_status env st = FileUnreadable
  ∨ manifest_status env st = MalformedJson →
  isDfxProject env st = (Ok None, st)
  ∧ Lean.activate env st = Lean.promptEntryPoint env st
  ∧ (∃ st', Lean.activate env st = (Ok tt, st'))
  ∧ Extended.startServer env st
      = Extended.promptEntryPoint env (Extended.stopClient st).2
  ∧ (∃ st', Extended.startServer env st = (Ok tt, st')).
Proof.
  intros Hfault.
  assert (Hnull : isDfxProject env st = (Ok None, st)).
  { rewrite isDfxProject_spec. by destruct Hfault as [-> | [-> | ->]]. }
  assert (Hlean : Lean.activate env st = Lean.promptEntryPoint env st).
  { unfold Lean.activate, bind. by rewrite Hnull. }
  assert (Hext : Extended.startServer env st
                 = Extended.promptEntryPoint env (Extended.stopClient st).2).
  { unfold Extended.startServer, bind.
    pose proof (stopClient_ok st) as Hok.
    destruct (Extended.stopClient st) as [r st1] eqn:Hstop. simpl in *. subst r.
    rewrite isDfxProject_spec.
    replace (manifest_status env st1) with (manifest_status env st).
    - by destruct Hfault as [-> | [-> | ->]].
    - rewrite <-(manifest_status_stopClient env st). by rewrite Hstop. }
  repeat split; try done.
  - rewrite Hlean. apply Lean_promptEntryPoint_returns.
  - rewrite Hext. apply Extended_promptEntryPoint_returns.
Qed.

Lemma manifest_faults_fall_back_witness :
  let env := World.host EmptyString None None SpawnFailed in
  let st := World.disk [] in
  manifest_status env st = FileMissing
  ∧ isDfxProject env st = (Ok None, st)
  ∧ Lean.activate env st = Lean.promptEntryPoint env st
  ∧ (∃ st', Lean.activate env st = (Ok tt, st'))
  ∧ Extended.startServer env st
      = Extended.promptEntryPoint env (Extended.stopClient st).2
  ∧ (∃ st', Extended.startServer env st = (Ok tt, st')).
Proof.
  intros env st.
  assert (Hmissing : manifest_status env st = FileMissing)
    by (vm_compute; reflexivity).
  split; [exact Hmissing |].
  exact (manifest_faults_fall_back env st (or_introl Hmissing)).
Defined.


(** ** Splitting the extra-arguments string *)

Lemma split_nonempty (sep : ascii) (s : string) : split sep s ≠ [].
Proof.
  destruct s as [|c s]; simpl; [done |].
  case_decide; [done |]. by destruct (split sep s).
Qed.

(** No piece of a split contains the separator. *)
Lemma split_pieces_free (sep : ascii) (s piece : string) :
  piece ∈ split sep s → has_char sep piece = false.
Proof.
  revert piece. induction s as [|c s IH]; intros piece; simpl.
  - intros ->%list_elem_of_singleton. done.
  - case_decide as Hc.
    + intros [-> | Hin]%elem_of_cons; [done | by apply IH].
    + destruct (split sep s) as [|t ts].
      * intros ->%list_elem_of_singleton. simpl.
        by rewrite bool_decide_eq_false_2.
      * intros [-> | Hin]%elem_of_cons.
        -- simpl. rewrite bool_decide_eq_false_2 by done. simpl.
           apply IH. by left.
        -- apply IH. by right.
Qed.

(** Joining the pieces with the separator gives the string back: the split
    cuts at every separator and nowhere else. *)
Lemma join_split (sep : ascii) (s : string) :
  join_pieces sep (split sep s) = s.
Proof.
  induction s as [|c s IH]; simpl; [done |].
  pose proof (split_nonempty sep s) as Hne.
  case_decide as Hc.
  - subst c. destruct (split sep s) as [|t ts]; [done |].
    simpl in *. by rewrite IH.
  - destruct (split sep s) as [|t ts]; [done |].
    destruct ts as [|t' ts]; simpl in *; by rewrite <-IH.
Qed.

(** C8.  [split(" ")] maps "--a --b" to the two arguments "--a" and "--b".
    It cuts at every single space and nowhere else: no piece ever contains a
    space and joining the pieces with spaces restores the text, so a quoted
    argument with a space inside is cut in two, quotation marks included.
    Both variants append exactly these pieces to the launch arguments. *)
Theorem split_extra_arguments :
  split space "--a --b" = ["--a"; "--b"]
  ∧ (∀ s piece, piece ∈ split space s → has_char space piece = false)
  ∧ (∀ s, join_pieces space (split space s) = s)
  ∧ split space quoted_argument
      = ["--flag"; String quote "a"; "b" +:+ String quote EmptyString]
  ∧ client (Lean.activate (World.host EmptyString None None SpawnFailed)
              (World.disk [])).2
      = Some {| command := "mo-ide";
                args := ["--canister-main"; "/tmp/foo.mo"; "--a"; "--b"] |}
  ∧ client (Extended.startServer (World.host EmptyString None None SpawnFailed)
              (World.disk [])).2
      = Some {| command := "mo-ide";
                args := ["--canister-main"; "/tmp/foo.mo"; "--a"; "--b"] |}.
Proof.
  split; [by vm_compute |].
  split; [apply split_pieces_free |].
  split; [apply join_split |].
  repeat split; by vm_compute.
Qed.

(** ** What the launch closures write to the log *)

Ltac emits_step :=
  first
    [ apply emits_only_ret
    | apply emits_only_throw
    | apply emits_only_bind; [| intros ?]
    | apply emits_only_try_catch; [| intros ?]
    | apply emits_only_pure; intros ?;
        first [ apply existsSync_state | apply readFileSync_state
              | apply execSync_state | apply first_folder_state ]
    | apply emits_only_quiet; intros ?;
        first [ apply mkdirSync_log | apply copyFileSync_log ] ].

Lemma Lean_getDfx_emits (env : Env) :
  emits_only (λ e, is_prompt e = false ∧ is_launch e = false) (Lean.getDfx env).
Proof.
  unfold Lean.getDfx. emits_step.
  - destruct (which_sync env _); emits_step.
  - emits_step; [emits_step |].
    destruct a; simpl; [emits_step |].
    emits_step; [| emits_step].
    by apply emits_only_emit.
Qed.

Lemma Lean_start_emits (env : Env) (target : string) :
  emits_only (launch_event (Lean_spec_of target)) (Lean.start env target).
Proof.
  unfold Lean.start. emits_step.
  - eapply emits_only_impl; [| apply Lean_getDfx_emits].
    intros e [Hp Hl]. split; [done |]. intros spec ->. done.
  - apply emits_only_launchClient. split; [done |].
    intros spec [= <-]. done.
Qed.

Lemma Extended_getOrCreateIDLPath_quiet (env : Env) :
  emits_only (λ _, False) (Extended.getOrCreateIDLPath env).
Proof.
  unfold Extended.getOrCreateIDLPath. emits_step; [| emits_step].
  destruct (workspaceFolders env); [| emits_step].
  emits_step; [emits_step |].
  emits_step; [emits_step |].
  destruct a0; [emits_step |].
  emits_step; emits_step.
Qed.

Lemma Extended_getDfxManifest_quiet (env : Env) :
  emits_only (λ _, False) (Extended.getDfxManifest env).
Proof.
  unfold Extended.getDfxManifest.
  destruct (workspaceFolders env); [| emits_step].
  emits_step; [| emits_step].
  emits_step; [emits_step |].
  emits_step; [emits_step |].
  destruct (JSON_parse_DfxCanisterManifest env _); emits_step.
Qed.

Lemma Extended_copy_entries_emits (env : Env) (idlPath : string)
    (entries : list (string * DfxManifestCanister))
    (acc : list Extended.CanisterMapping) :
  emits_only (λ e, is_console e = true)
    (Extended.copy_entries env idlPath entries acc).
Proof.
  revert acc. induction entries as [|[alias info] rest IH]; intros acc; simpl.
  - emits_step.
  - emits_step; [by apply emits_only_emit |].
    emits_step; [emits_step |]. apply IH.
Qed.

Lemma Extended_copyIDLFiles_emits (env : Env) :
  emits_only (λ e, is_console e = true) (Extended.copyIDLFiles env).
Proof.
  unfold Extended.copyIDLFiles. emits_step.
  - eapply emits_only_impl; [| apply Extended_getOrCreateIDLPath_quiet]. done.
  - destruct a; [| emits_step]. emits_step.
    + eapply emits_only_impl; [| apply Extended_getDfxManifest_quiet]. done.
    + destruct a; [| emits_step]. emits_step; [| emits_step].
      apply Extended_copy_entries_emits.
Qed.

Lemma member_own {V} (o : JsObject V) (k : string) (v : V) :
  get_property o k = Some v → member o k = OwnValue v.
Proof. unfold member. by intros ->. Qed.

Lemma Extended_start_emits (env : Env) (dfxConfig : DfxConfig) (target : string) :
  is_Some (get_property (canisters dfxConfig) target) →
  emits_only (launch_event (Extended_spec_of env dfxConfig target))
    (Extended.start env dfxConfig target).
Proof.
  intros [descriptor Hget]. unfold Extended.start. emits_step.
  - eapply emits_only_impl; [| apply Extended_copyIDLFiles_emits].
    intros e He. split; [by destruct e |]. intros spec ->. done.
  - rewrite (member_own _ _ _ Hget).
    intros st. unfold bind, ret. simpl.
    exists [ClientStart
              {| command := standaloneBinary (config env);
                 args := ["--canister-main"; main descriptor]
                           ++ Extended.idlArgs_of a |}].
    split; [done |]. apply Forall_singleton. split; [done |].
    intros spec [= <-]. by exists descriptor, (Extended.idlArgs_of a).
Qed.

Lemma Extended_start_no_prompt (env : Env) (dfxConfig : DfxConfig)
    (target : string) :
  emits_only (λ e, is_prompt e = false) (Extended.start env dfxConfig target).
Proof.
  unfold Extended.start. emits_step.
  - eapply emits_only_impl; [| apply Extended_copyIDLFiles_emits].
    intros e He. by destruct e.
  - emits_step; [| by apply emits_only_launchClient].
    destruct (member _ _); emits_step.
Qed.

(** ** Target selection *)

Lemma get_property_elem_of {V} (o : JsObject V) (k : string) :
  k ∈ Object_keys o → is_Some (get_property o k).
Proof.
  unfold Object_keys. induction o as [|[k' v] o IH]; simpl.
  - by intros ?%elem_of_nil.
  - intros [-> | Hin]%elem_of_cons; case_decide; eauto; done.
Qed.

(** The branch of [launchDfxProject] that asks: the request is logged once,
    the callback runs on the answer, and a dismissed prompt changes nothing
    else. *)
Lemma quick_pick_branch (env : Env) (items : list string)
    (cb : option string → M unit) (st : State) :
  (∀ c, emits_only (λ e, is_prompt e = false) (cb c)) →
  cb None = ret tt →
  ∃ st' evs,
    (c <- showQuickPick env items ;; then_ c cb) st = (Ok tt, st')
    ∧ log st' = log st ++ ShowQuickPick items :: evs
    ∧ Forall (λ e, is_prompt e = false) evs
    ∧ (quickPickAnswer env items = None →
       evs = [] ∧ client st' = client st ∧ fs st' = fs st).
Proof.
  intros Hcb Hnone. unfold bind, showQuickPick, emit, ret. simpl.
  set (st1 := {| fs := fs st; client := client st;
                 log := log st ++ [ShowQuickPick items] |}).
  destruct (then_returns (quickPickAnswer env items) cb st1) as [st' Hst'].
  destruct (emits_only_then (λ e, is_prompt e = false)
              (quickPickAnswer env items) cb (λ _, eq_refl) (Hcb _) st1)
    as (evs & Hlog & Hevs).
  rewrite Hst' in Hlog. simpl in Hlog.
  exists st', evs. split; [done |].
  split; [by rewrite Hlog, <-app_assoc |].
  split; [done |].
  intros Hdismissed. rewrite Hdismissed in Hst'.
  unfold then_, try_catch in Hst'. rewrite Hnone in Hst'.
  injection Hst' as <-. split; [| done].
  apply (app_inv_head (log st ++ [ShowQuickPick items])).
  by rewrite app_nil_r.
Qed.

(** C4.  With no configured default and more than one target, both variants
    ask for a target exactly once: the run returns normally, its log grows by
    one [showQuickPick] request followed by events none of which is a prompt.
    When the request is dismissed nothing follows it: no client is started
    and the current client and the file system stay as they were. *)
Theorem quick_pick_once_and_dismissal (env : Env) (dfxConfig : DfxConfig)
    (st : State) :
  canister (config env) = EmptyString →
  1 < length (Object_keys (canisters dfxConfig)) →
  (∃ st' evs,
      Lean.launchDfxProject env dfxConfig st = (Ok tt, st')
      ∧ log st' = log st ++ ShowQuickPick (Object_keys (canisters dfxConfig)) :: evs
      ∧ Forall (λ e, is_prompt e = false) evs
      ∧ (quickPickAnswer env (Object_keys (canisters dfxConfig)) = None →
         evs = [] ∧ client st' = client st ∧ fs st' = fs st))
  ∧ (∃ st' evs,
      Extended.launchDfxProject env dfxConfig st = (Ok tt, st')
      ∧ log st' = log st ++ ShowQuickPick (Object_keys (canisters dfxConfig)) :: evs
      ∧ Forall (λ e, is_prompt e = false) evs
      ∧ (quickPickAnswer env (Object_keys (canisters dfxConfig)) = None →
         evs = [] ∧ client st' = client st ∧ fs st' = fs st)).
Proof.
  intros Hdefault Hmany.
  unfold Lean.launchDfxProject, Extended.launchDfxProject.
  rewrite Hdefault. simpl.
  destruct (Object_keys (canisters dfxConfig)) as [|k1 [|k2 ks]] eqn:Hkeys;
    simpl in Hmany; try lia.
  split.
  - apply quick_pick_branch; [| done].
    intros [picked|]; [| apply emits_only_ret].
    destruct (truthy (Some picked)); [| apply emits_only_ret].
    eapply emits_only_impl; [| apply Lean_start_emits]. by intros e [? _].
  - apply quick_pick_branch; [| done].
    intros [picked|]; [| apply emits_only_ret].
    destruct (truthy (Some picked)); [| apply emits_only_ret].
    apply Extended_start_no_prompt.
Qed.

Lemma quick_pick_once_and_dismissal_witness :
  let env := World.host EmptyString None None SpawnFailed in
  let st := World.disk World.project_two in
  canister (config env) = EmptyString
  ∧ 1 < length (Object_keys (canisters World.two_targets))
  ∧ (∃ st' evs,
      Lean.launchDfxProject env World.two_targets st = (Ok tt, st')
      ∧ log st' = log st ++ ShowQuickPick ["main"; "assets"] :: evs
      ∧ Forall (λ e, is_prompt e = false) evs
      ∧ (quickPickAnswer env ["main"; "assets"] = None →
         evs = [] ∧ client st' = client st ∧ fs st' = fs st))
  ∧ (∃ st' evs,
      Extended.launchDfxProject env World.two_targets st = (Ok tt, st')
      ∧ log st' = log st ++ ShowQuickPick ["main"; "assets"] :: evs
      ∧ Forall (λ e, is_prompt e = false) evs
      ∧ (quickPickAnswer env ["main"; "assets"] = None →
         evs = [] ∧ client st' = client st ∧ fs st' = fs st)).
Proof.
  intros env st.
  assert (H1 : canister (config env) = EmptyString) by reflexivity.
  assert (H2 : 1 < length (Object_keys (canisters World.two_targets)))
    by (simpl; lia).
  split; [exact H1 |]. split; [exact H2 |].
  exact (quick_pick_once_and_dismissal env World.two_targets st H1 H2).
Defined.

(** ** The scratch directory and the interface manifest
       (src/unnamed/part_000) *)

(** What one directory of a recursive [mkdir] does. *)
Lemma mkdir_one_changes (env : Env) (blocked p : string) (st : State) :
  log (mkdir_one env blocked p st).2 = log st
  ∧ client (mkdir_one env blocked p st).2 = client st
  ∧ (∀ q, fs (mkdir_one env blocked p st).2 !! q = fs st !! q
          ∨ (q = p ∧ fs st !! q = None
             ∧ fs (mkdir_one env blocked p st).2 !! q = Some Dir))
  ∧ (∀ u, (mkdir_one env blocked p st).1 = Ok u →
          fs (mkdir_one env blocked p st).2 !! p = Some Dir).
Proof.
  unfold mkdir_one.
  destruct (fs st !! p) as [[|readable text]|] eqn:Hp; simpl;
    try (repeat split; [by left | done]).
  destruct (writable env p); simpl; [| repeat split; [by left | done]].
  split; [done |]. split; [done |]. split.
  - intros q. destruct (decide (q = p)) as [-> | Hne].
    + right. by rewrite lookup_insert_eq.
    + left. by rewrite lookup_insert_ne.
  - intros _ _. by rewrite lookup_insert_eq.
Qed.

(** What a recursive [mkdir] does: it adds no log entry and leaves [client]
    alone; a path changes only by being created as a directory where nothing
    was, and only if it is on the chain; and after a normal return every
    path on the chain is a directory. *)
Lemma mkdir_chain_changes (env : Env) (above : list string) (p : string)
    (st : State) :
  log (mkdir_chain env above p st).2 = log st
  ∧ client (mkdir_chain env above p st).2 = client st
  ∧ (∀ q, fs (mkdir_chain env above p st).2 !! q = fs st !! q
          ∨ (q ∈ above ++ [p] ∧ fs st !! q = None
             ∧ fs (mkdir_chain env above p st).2 !! q = Some Dir))
  ∧ (∀ u, (mkdir_chain env above p st).1 = Ok u →
          ∀ q, q ∈ above ++ [p] →
            fs (mkdir_chain env above p st).2 !! q = Some Dir).
Proof.
  revert st. induction above as [|q0 above IH]; intros st.
  - destruct (mkdir_one_changes env "EEXIST" p st)
      as (Hlog & Hclient & Hframe & Hdone).
    simpl. split; [done |]. split; [done |]. split.
    + intros q. destruct (Hframe q) as [? | (-> & ? & ?)]; [by left |].
      right. split; [by left | done].
    + intros u Hu q ->%list_elem_of_singleton. by eapply Hdone.
  - destruct (mkdir_one_changes env "ENOTDIR" q0 st)
      as (Hlog & Hclient & Hframe & Hdone).
    simpl. unfold bind.
    destruct (mkdir_one env "ENOTDIR" q0 st) as [[[]|e] st1]; simpl in *.
    + destruct (IH st1) as (Hlog' & Hclient' & Hframe' & Hdone').
      split; [congruence |]. split; [congruence |]. split.
      * intros q. destruct (Hframe' q) as [Hsame | (Hin & Hnone & Hnow)].
        -- rewrite Hsame. destruct (Hframe q) as [? | (-> & ? & ?)];
             [by left |].
           right. split; [by left | done].
        -- right. split; [by right |]. split; [| done].
           destruct (Hframe q) as [<- | (_ & _ & Hdir)]; [done |].
           by rewrite Hdir in Hnone.
      * intros u Hu q [-> | Hin]%elem_of_cons; [| by eapply Hdone'].
        destruct (Hframe' q0) as [-> | (_ & Hnone & _)].
        -- by eapply Hdone.
        -- by rewrite (Hdone tt eq_refl) in Hnone.
    + split; [done |]. split; [done |]. split; [| done].
      intros q. destruct (Hframe q) as [? | (-> & ? & ?)]; [by left |].
      right. split; [by left | done].
Qed.


Lemma getOrCreateIDLPath_equation (env : Env) (st : State) :
  Extended.getOrCreateIDLPath env st =
    match scratch_dir env with
    | None => (Ok None, st)
    | Some dir =>
        if bool_decide (is_Some (fs st !! dir)) then (Ok (Some dir), st)
        else match mkdirSync env dir st with
             | (Ok _, st') => (Ok (Some dir), st')
             | (Throw _, st') => (Ok None, st')
             end
    end.
Proof.
  unfold Extended.getOrCreateIDLPath, scratch_dir, try_catch.
  destruct (workspaceFolders env) as [[|ws rest]|]; try done.
  unfold bind at 1 2, first_folder, ret, existsSync. simpl.
  destruct (bool_decide _); [done |]. unfold bind.
  by destruct (mkdirSync env _ st) as [[[]|e] st'].
Qed.

(** [getOrCreateIDLPath] never throws, and what it does to the state is what
    the recursive [mkdir] of the scratch directory does. *)
Lemma getOrCreateIDLPath_changes (env : Env) (st : State) :
  ∃ result st',
    Extended.getOrCreateIDLPath env st = (Ok result, st')
    ∧ log st' = log st
    ∧ client st' = client st
    ∧ (∀ p, fs st' !! p = fs st !! p
            ∨ (∃ dir,
                 scratch_dir env = Some dir
                 ∧ p ∈ path_ancestors env dir ++ [dir]
                 ∧ fs st !! p = None
                 ∧ fs st' !! p = Some Dir))
    ∧ (∀ dir, result = Some dir →
         scratch_dir env = Some dir
         ∧ is_Some (fs st' !! dir)
         ∧ (fs st !! dir = None →
            ∀ q, q ∈ path_ancestors env dir → fs st' !! q = Some Dir)).
Proof.
  rewrite getOrCreateIDLPath_equation.
  destruct (scratch_dir env) as [dir|] eqn:Hdir.
  2:{ exists None, st. split; [done |]. split; [done |]. split; [done |].
      split; [by left | done]. }
  destruct (bool_decide (is_Some (fs st !! dir))) eqn:Hthere.
  { apply bool_decide_eq_true in Hthere. exists (Some dir), st.
    split; [done |]. split; [done |]. split; [done |]. split; [by left |].
    intros ? [= <-]. split; [done |]. split; [done |].
    intros Hnone. rewrite Hnone in Hthere. by destruct Hthere. }
  unfold mkdirSync.
  destruct (mkdir_chain_changes env (path_ancestors env dir) dir st)
    as (Hlog & Hclient & Hframe & Hdone).
  assert (Hpaths : ∀ p,
            fs (mkdir_chain env (path_ancestors env dir) dir st).2 !! p
            = fs st !! p
            ∨ (∃ dir0,
                 Some dir = Some dir0
                 ∧ p ∈ path_ancestors env dir0 ++ [dir0]
                 ∧ fs st !! p = None
                 ∧ fs (mkdir_chain env (path_ancestors env dir) dir st).2 !! p
                   = Some Dir)).
  { intros p. destruct (Hframe p) as [? | ?]; [by left |]. right. by exists dir. }
  destruct (mkdir_chain env (path_ancestors env dir) dir st)
    as [[[]|e] st1]; simpl in *.
  - exists (Some dir), st1. split; [done |]. split; [done |]. split; [done |].
    split; [done |]. intros ? [= <-]. split; [done |]. split.
    + rewrite (Hdone tt eq_refl dir); [by eexists |].
      apply elem_of_app. right. by left.
    + intros _ q Hq. apply (Hdone tt eq_refl). apply elem_of_app. by left.
  - exists None, st1. split; [done |]. split; [done |]. split; [done |].
    split; [done | done].
Qed.


Lemma getDfxManifest_spec (env : Env) (st : State) :
  Extended.getDfxManifest env st = (Ok (interface_manifest_on_disk env st), st).
Proof.
  unfold Extended.getDfxManifest, interface_manifest_on_disk.
  destruct (workspaceFolders env) as [[|ws rest]|]; try done.
  unfold try_catch, bind, first_folder, ret, readFileSync.
  destruct (fs st !! path_join env [ws; "canisters"; "canister_manifest.json"])
    as [[|[] text]|]; try done.
  by destruct (JSON_parse_DfxCanisterManifest env text).
Qed.

(** Without an interface manifest on disk, staging returns [null]; all it
    may have done is create the scratch directory. *)
Lemma copyIDLFiles_without_manifest (env : Env) (st : State) :
  interface_manifest_on_disk env st = None →
  ∃ st1,
    Extended.copyIDLFiles env st = (Ok None, st1)
    ∧ log st1 = log st
    ∧ client st1 = client st.
Proof.
  intros Hnone.
  destruct (getOrCreateIDLPath_changes env st)
    as (result & st1 & Hrun & Hlog & Hclient & Hframe & _).
  exists st1. split; [| done].
  unfold Extended.copyIDLFiles, bind. rewrite Hrun.
  destruct result as [idlPath|]; [| done].
  rewrite getDfxManifest_spec.
  assert (Hnone1 : interface_manifest_on_disk env st1 = None); [| by rewrite Hnone1].
  unfold interface_manifest_on_disk in *.
  destruct (workspaceFolders env) as [[|ws rest]|]; try done.
  destruct (Hframe (path_join env [ws; "canisters"; "canister_manifest.json"]))
    as [-> | (_ & _ & _ & _ & ->)]; done.
Qed.

(** ** The target selected without a prompt *)

Lemma Lean_getDfx_found (env : Env) (st : State) (found : string) :
  which_sync env (dfx (config env)) = Some found →
  Lean.getDfx env st = (Ok found, st).
Proof. intros Hwhich. unfold Lean.getDfx, try_catch. by rewrite Hwhich. Qed.

(** C5, with the launch made to depend on the step before it.  With no
    configured default and a manifest of exactly one target, both variants
    run the launch closure on that target and log no prompt; every client
    they start is started on that target's launch specification.  Whether a
    client is started is decided by the step of the closure that precedes
    the launch.  The lean variant starts the client on the target, and does
    nothing else, when dfx is found on the search path or something exists
    at the configured path, and more generally whenever the executable
    lookup returns.  The extended variant starts it whenever the interface
    staging returns, which it does in particular when there is no interface
    manifest on disk: then the client gets the mode flag and the target's
    main file, and nothing is logged before the start. *)
Theorem single_target_selected (env : Env) (dfxConfig : DfxConfig)
    (only : string) (descriptor : DfxCanister) (st : State) :
  canister (config env) = EmptyString →
  canisters dfxConfig = [(only, descriptor)] →
  (Lean.launchDfxProject env dfxConfig st = Lean.start env only st
   ∧ (∃ evs, log (Lean.launchDfxProject env dfxConfig st).2 = log st ++ evs
             ∧ Forall (launch_event (Lean_spec_of only)) evs)
   ∧ (∀ found st1, Lean.getDfx env st = (Ok found, st1) →
        Lean.launchDfxProject env dfxConfig st
        = launchClient {| command := found;
                          args := ["_language-service"; only] |} st1)
   ∧ (is_Some (which_sync env (dfx (config env)))
      ∨ is_Some (fs st !! dfx (config env)) →
      ∃ executable,
        Lean.launchDfxProject env dfxConfig st
        = launchClient {| command := executable;
                          args := ["_language-service"; only] |} st))
  ∧ (Extended.launchDfxProject env dfxConfig st
       = Extended.start env dfxConfig only st
     ∧ (∃ evs, log (Extended.launchDfxProject env dfxConfig st).2 = log st ++ evs
               ∧ Forall (launch_event (Extended_spec_of env dfxConfig only)) evs)
     ∧ (∀ idlFiles st1, Extended.copyIDLFiles env st = (Ok idlFiles, st1) →
          Extended.launchDfxProject env dfxConfig st
          = launchClient {| command := standaloneBinary (config env);
                            args := ["--canister-main"; main descriptor]
                                      ++ Extended.idlArgs_of idlFiles |} st1)
     ∧ (interface_manifest_on_disk env st = None →
        ∃ st1,
          log st1 = log st
          ∧ client st1 = client st
          ∧ Extended.launchDfxProject env dfxConfig st
            = launchClient {| command := standaloneBinary (config env);
                              args := ["--canister-main"; main descriptor] |}
                st1)).
Proof.
  intros Hdefault Hone.
  assert (HL : Lean.launchDfxProject env dfxConfig st = Lean.start env only st).
  { unfold Lean.launchDfxProject. by rewrite Hdefault, Hone. }
  assert (HE : Extended.launchDfxProject env dfxConfig st
               = Extended.start env dfxConfig only st).
  { unfold Extended.launchDfxProject. by rewrite Hdefault, Hone. }
  assert (Hget : get_property (canisters dfxConfig) only = Some descriptor).
  { rewrite Hone. simpl. by rewrite decide_True. }
  split.
  - split; [done |]. split; [rewrite HL; apply Lean_start_emits |].
    split.
    + intros found st1 Hfound. rewrite HL. unfold Lean.start, bind.
      by rewrite Hfound.
    + intros Hlookup. rewrite HL. unfold Lean.start, bind.
      destruct (which_sync env (dfx (config env))) as [found|] eqn:Hwhich.
      * exists found. by rewrite (Lean_getDfx_found env st found).
      * destruct Hlookup as [[? [=]] | Hthere].
        exists (dfx (config env)).
        unfold Lean.getDfx, try_catch, bind, existsSync, throw, ret.
        rewrite Hwhich. simpl. by rewrite bool_decide_eq_true_2.
  - split; [done |]. split; [| split].
    + rewrite HE. apply Extended_start_emits. by eexists.
    + intros idlFiles st1 Hstaged. rewrite HE. unfold Extended.start, bind.
      by rewrite Hstaged, (member_own _ _ _ Hget).
    + intros Hnone.
      destruct (copyIDLFiles_without_manifest env st Hnone)
        as (st1 & Hstaged & Hlog & Hclient).
      exists st1. split; [done |]. split; [done |].
      rewrite HE. unfold Extended.start, bind.
      by rewrite Hstaged, (member_own _ _ _ Hget).
Qed.

Lemma single_target_selected_witness :
  let env := World.host EmptyString None (Some "/usr/bin/dfx") SpawnFailed in
  let st := World.disk World.project_one in
  canister (config env) = EmptyString
  ∧ canisters World.one_target = [("main", {| main := "src/main.mo" |})]
  ∧ (∃ executable,
       Lean.launchDfxProject env World.one_target st
       = launchClient {| command := executable;
                         args := ["_language-service"; "main"] |} st)
  ∧ (∃ st1,
       log st1 = log st
       ∧ client st1 = client st
       ∧ Extended.launchDfxProject env World.one_target st
         = launchClient {| command := "mo-ide";
                           args := ["--canister-main"; "src/main.mo"] |} st1).
Proof.
  intros env st.
  destruct (single_target_selected env World.one_target "main"
              {| main := "src/main.mo" |} st eq_refl eq_refl)
    as [(_ & _ & _ & HL) (_ & _ & _ & HE)].
  split; [reflexivity |]. split; [reflexivity |]. split.
  - apply HL. left. vm_compute. by eexists.
  - apply HE. vm_compute. reflexivity.
Defined.

(** Selection without launch.  In both runs the manifest has its one target
    and no default is configured.  In the first, dfx is neither on the
    search path nor at the configured path: the lean variant selects the
    target, shows the notification and throws.  In the second, the interface
    manifest names an artifact that does not exist: the extended variant
    selects the target and throws while staging.  Neither run starts a
    client. *)
Lemma single_target_selected_but_not_launched :
  let env := World.host EmptyString None None SpawnFailed in
  let st := World.disk World.project_one in
  let st2 :=
    World.disk
      (World.project_one
       ++ World.interface_manifest
            "{canisters:{main:{candid_path:/ws/canisters/main/main.did,canister_id:ic:ABCD}}}") in
  canister (config env) = EmptyString
  ∧ canisters World.one_target = [("main", {| main := "src/main.mo" |})]
  ∧ manifest_status env st = Manifest World.one_target
  ∧ (Lean.launchDfxProject env World.one_target st).1
    = Throw (Error "Failed to locate dfx")
  ∧ (Lean.activate env st).1 = Throw (Error "Failed to locate dfx")
  ∧ log (Lean.activate env st).2
    = [ShowErrorMessage (Lean.locate_failure "dfx")]
  ∧ client (Lean.activate env st).2 = None
  ∧ manifest_status env st2 = Manifest World.one_target
  ∧ (Extended.launchDfxProject env World.one_target st2).1
    = Throw (SystemError "ENOENT")
  ∧ (Extended.startServer env st2).1 = Throw (SystemError "ENOENT")
  ∧ log (Extended.startServer env st2).2 = [ConsoleLog ["ic:ABCD"; "ABCD"]]
  ∧ client (Extended.startServer env st2).2 = None.
Proof. intros env st st2. repeat split; by vm_compute. Qed.

(** C6.  With a non-empty configured default that names a target of the
    manifest, both variants run the launch closure on the configured target,
    however many targets there are: the run is [start] of that name, it logs
    no prompt, and every client it starts is started on the launch
    specification of the configured target. *)
Theorem configured_target_selected (env : Env) (dfxConfig : DfxConfig)
    (st : State) :
  canister (config env) ≠ EmptyString →
  canister (config env) ∈ Object_keys (canisters dfxConfig) →
  (Lean.launchDfxProject env dfxConfig st
     = Lean.start env (canister (config env)) st
   ∧ (∃ evs, log (Lean.launchDfxProject env dfxConfig st).2 = log st ++ evs
             ∧ Forall (launch_event (Lean_spec_of (canister (config env)))) evs))
  ∧ (Extended.launchDfxProject env dfxConfig st
       = Extended.start env dfxConfig (canister (config env)) st
     ∧ (∃ evs, log (Extended.launchDfxProject env dfxConfig st).2 = log st ++ evs
               ∧ Forall (launch_event
                           (Extended_spec_of env dfxConfig (canister (config env))))
                   evs)
     ∧ (∃ descriptor,
          get_property (canisters dfxConfig) (canister (config env))
            = Some descriptor
          ∧ ∀ idlFiles st1,
              Extended.copyIDLFiles env st = (Ok idlFiles, st1) →
              Extended.launchDfxProject env dfxConfig st
              = launchClient {| command := standaloneBinary (config env);
                                args := ["--canister-main"; main descriptor]
                                          ++ Extended.idlArgs_of idlFiles |} st1)).
Proof.
  intros Hset Hin.
  assert (HL : Lean.launchDfxProject env dfxConfig st
               = Lean.start env (canister (config env)) st).
  { unfold Lean.launchDfxProject. by rewrite bool_decide_eq_false_2. }
  assert (HE : Extended.launchDfxProject env dfxConfig st
               = Extended.start env dfxConfig (canister (config env)) st).
  { unfold Extended.launchDfxProject. by rewrite bool_decide_eq_false_2. }
  split; [split; [done |] | split; [done |]].
  - rewrite HL. apply Lean_start_emits.
  - split;
      [rewrite HE; apply Extended_start_emits; by apply get_property_elem_of |].
    destruct (get_property_elem_of _ _ Hin) as [descriptor Hget].
    exists descriptor. split; [done |].
    intros idlFiles st1 Hstaged. rewrite HE. unfold Extended.start, bind.
    by rewrite Hstaged, (member_own _ _ _ Hget).
Qed.

Lemma configured_target_selected_witness :
  let env := World.host "assets" None (Some "/usr/bin/dfx") SpawnFailed in
  let st := World.disk World.project_two in
  canister (config env) ≠ EmptyString
  ∧ canister (config env) ∈ Object_keys (canisters World.two_targets)
  ∧ Lean.launchDfxProject env World.two_targets st = Lean.start env "assets" st
  ∧ Extended.launchDfxProject env World.two_targets st
    = Extended.start env World.two_targets "assets" st.
Proof.
  intros env st.
  assert (H1 : canister (config env) ≠ EmptyString) by done.
  assert (H2 : canister (config env) ∈ Object_keys (canisters World.two_targets)).
  { simpl. apply elem_of_cons. right. apply elem_of_cons. by left. }
  destruct (configured_target_selected env World.two_targets st H1 H2)
    as [[HL _] [HE _]].
  split; [exact H1 |]. split; [exact H2 |].
  split; [exact HL | exact HE].
Defined.

(** ** Executable lookup (src/src/extension.ts) *)

Lemma Lean_getDfx_missing (env : Env) (st : State) :
  which_sync env (dfx (config env)) = None →
  fs st !! dfx (config env) = None →
  Lean.getDfx env st =
    (Throw (Error "Failed to locate dfx"),
     {| fs := fs st; client := client st;
        log := log st
               ++ [ShowErrorMessage (Lean.locate_failure (dfx (config env)))] |}).
Proof.
  intros Hwhich Hfs.
  unfold Lean.getDfx, try_catch, bind, existsSync, showErrorMessage, emit, throw.
  by rewrite Hwhich, Hfs.
Qed.

Lemma Lean_getDfx_present (env : Env) (st : State) :
  which_sync env (dfx (config env)) = None →
  is_Some (fs st !! dfx (config env)) →
  Lean.getDfx env st = (Ok (dfx (config env)), st).
Proof.
  intros Hwhich Hfs.
  unfold Lean.getDfx, try_catch, bind, existsSync, throw, ret.
  rewrite Hwhich. simpl. by rewrite bool_decide_eq_true_2.
Qed.

(** C7.  In the variant that looks dfx up on the search path, suppose the
    lookup fails.  If nothing exists at the configured path, the launch
    closure shows the error notification and throws without starting a
    client, and no run of [launchDfxProject] starts a client or replaces the
    current one: it shows the notification, unless it never reached the
    closure because the target prompt gave no target.  If the configured
    path exists, the closure starts the client on that very path. *)
Theorem dfx_lookup_failure (env : Env) (st : State) :
  which_sync env (dfx (config env)) = None →
  (fs st !! dfx (config env) = None →
     (∀ target,
        Lean.start env target st =
          (Throw (Error "Failed to locate dfx"),
           {| fs := fs st; client := client st;
              log := log st
                     ++ [ShowErrorMessage
                           (Lean.locate_failure (dfx (config env)))] |}))
     ∧ (∀ dfxConfig, ∃ evs,
          log (Lean.launchDfxProject env dfxConfig st).2 = log st ++ evs
          ∧ Forall (λ e, is_launch e = false) evs
          ∧ client (Lean.launchDfxProject env dfxConfig st).2 = client st
          ∧ (ShowErrorMessage (Lean.locate_failure (dfx (config env))) ∈ evs
             ∨ evs = [ShowQuickPick (Object_keys (canisters dfxConfig))])))
  ∧ (is_Some (fs st !! dfx (config env)) →
     ∀ target,
       Lean.start env target st =
         launchClient {| command := dfx (config env);
                         args := ["_language-service"; target] |} st).
Proof.
  intros Hwhich. split.
  - intros Hfs.
    assert (Hstart : ∀ target st0, fs st0 = fs st →
              Lean.start env target st0 =
                (Throw (Error "Failed to locate dfx"),
                 {| fs := fs st0; client := client st0;
                    log := log st0
                           ++ [ShowErrorMessage
                                 (Lean.locate_failure (dfx (config env)))] |})).
    { intros target st0 Hst0. unfold Lean.start, bind.
      rewrite Lean_getDfx_missing; [done | done | by rewrite Hst0]. }
    split; [intros target; by apply Hstart |].
    intros dfxConfig. unfold Lean.launchDfxProject.
    destruct (negb (bool_decide (canister (config env) = EmptyString))).
    { rewrite Hstart by done. simpl. eexists. split; [done |].
      split; [by apply Forall_singleton |]. split; [done |].
      left. apply list_elem_of_singleton. done. }
    destruct (Object_keys (canisters dfxConfig)) as [|k1 [|k2 ks]] eqn:Hkeys.
    2:{ rewrite Hstart by done. simpl. eexists. split; [done |].
        split; [by apply Forall_singleton |]. split; [done |].
        left. apply list_elem_of_singleton. done. }
    all: unfold bind, showQuickPick, emit, ret, then_, try_catch; simpl.
    all: destruct (quickPickAnswer env _) as [picked|];
           [destruct (truthy (Some picked)) |].
    all: try rewrite Hstart by done; simpl.
    all: rewrite <-?app_assoc; simpl.
    all: eexists; (split; [reflexivity |]).
    all: split; [by repeat constructor |]; split; [done |].
    all: first [ by right
               | left; apply elem_of_cons; right; apply elem_of_cons; by left ].
  - intros Hfs target. unfold Lean.start, bind.
    by rewrite Lean_getDfx_present.
Qed.

Lemma dfx_lookup_failure_witness :
  let env := World.host EmptyString None None SpawnFailed in
  let st := World.disk World.project_one in
  which_sync env (dfx (config env)) = None
  ∧ fs st !! dfx (config env) = None
  ∧ Lean.start env "main" st =
      (Throw (Error "Failed to locate dfx"),
       {| fs := fs st; client := client st;
          log := log st ++ [ShowErrorMessage (Lean.locate_failure "dfx")] |}).
Proof.
  intros env st.
  assert (H1 : which_sync env (dfx (config env)) = None) by reflexivity.
  assert (H2 : fs st !! dfx (config env) = None) by (vm_compute; reflexivity).
  destruct (dfx_lookup_failure env st H1) as [Hmissing _].
  destruct (Hmissing H2) as [Hstart _].
  split; [exact H1 |]. split; [exact H2 |]. exact (Hstart "main").
Defined.

(** ** A configured target that is not in the manifest
       (src/unnamed/part_000) *)





(** ** Package-source discovery (src/unnamed/part_000) *)

Lemma manifest_status_fs (env : Env) (st st0 : State) :
  fs st0 = fs st → manifest_status env st0 = manifest_status env st.
Proof. unfold manifest_status. by intros ->. Qed.

Lemma vessel_discovery_fails_fs (env : Env) (st st0 : State) :
  fs st0 = fs st → vessel_discovery_fails env st0 = vessel_discovery_fails env st.
Proof. unfold vessel_discovery_fails. by intros ->. Qed.

(** When discovery fails, [vesselArgs] returns the empty list; all it does
    besides is print the caught exception. *)
Lemma vesselArgs_degrades (env : Env) (st : State) :
  vessel_discovery_fails env st = true →
  ∃ evs,
    Extended.vesselArgs env st
      = (Ok [], {| fs := fs st; client := client st; log := log st ++ evs |})
    ∧ Forall (λ e, is_console e = true) evs.
Proof.
  unfold vessel_discovery_fails, Extended.vesselArgs, try_catch, bind,
    first_folder, existsSync, execSync, emit, throw, ret.
  destruct (workspaceFolders env) as [[|ws rest]|]; simpl.
  - intros _. exists [ConsoleLogError TypeError].
    split; [done | by apply Forall_singleton].
  - destruct (fs st !! path_join env [ws; "vessel.json"]) as [entry|]; simpl.
    + destruct (run_process env "vessel sources" ws) as [|[|status] stdout];
        intros Hfails; try done.
      all: exists [ConsoleLogError ExecError].
      all: split; [done | by apply Forall_singleton].
    + intros _. exists []. rewrite app_nil_r. by destruct st.
  - intros _. exists [ConsoleLogError TypeError].
    split; [done | by apply Forall_singleton].
Qed.

(** C2.  In the manifest-absent path of the extended variant, suppose
    package-source discovery fails (no vessel.json, or the listing command
    cannot be spawned or exits with a non-zero status) and the user gives an
    entry point.  Then [vesselArgs] returns the empty list without throwing,
    and [startServer] returns normally having started the client on the
    standalone binary with the mode flag, the entry point and the split extra
    arguments, nothing missing and nothing added. *)
Theorem vessel_failure_keeps_launch (env : Env) (st : State) (file : string) :
  vessel_discovery_fails env st = true →
  (∀ dfxConfig, manifest_status env st ≠ Manifest dfxConfig) →
  inputBoxAnswer env entry_prompt (activeDocument env) = Some file →
  file ≠ EmptyString →
  (∃ st1, Extended.vesselArgs env st = (Ok [], st1) ∧ fs st1 = fs st
          ∧ client st1 = client st)
  ∧ (∃ st' evs,
       Extended.startServer env st = (Ok tt, st')
       ∧ client st'
         = Some {| command := standaloneBinary (config env);
                   args := ["--canister-main"; file]
                             ++ split space (standaloneArguments (config env)) |}
       ∧ log st'
         = log st ++ evs
             ++ [ClientStart
                   {| command := standaloneBinary (config env);
                      args := ["--canister-main"; file]
                                ++ split space
                                     (standaloneArguments (config env)) |}]
       ∧ Forall (λ e, is_launch e = false) evs).
Proof.
  intros Hfails Habsent Hanswer Hfile. split.
  - destruct (vesselArgs_degrades env st Hfails) as (evs & -> & _). by eexists.
  - unfold Extended.startServer, bind.
    pose proof (stopClient_ok st) as Hok.
    assert (Hstop : ∃ evs0, (Extended.stopClient st).2
              = {| fs := fs st; client := client st; log := log st ++ evs0 |}
              ∧ Forall (λ e, is_launch e = false) evs0).
    { unfold Extended.stopClient. destruct (client st) eqn:Hclient.
      - exists [ClientStop]. unfold emit. simpl. rewrite Hclient.
        split; [done | by apply Forall_singleton].
      - exists []. simpl. rewrite app_nil_r. split; [| done].
        destruct st; simpl in *; by subst. }
    destruct Hstop as (evs0 & Hst0 & Hevs0).
    destruct (Extended.stopClient st) as [r st0]. simpl in *. subst r st0.
    set (st0 := {| fs := fs st; client := client st; log := log st ++ evs0 |}).
    assert (Hnull : isDfxProject env st0 = (Ok None, st0)).
    { rewrite isDfxProject_spec, (manifest_status_fs env st st0 eq_refl).
      destruct (manifest_status env st) eqn:Hstatus; try done.
      by exfalso; eapply Habsent. }
    rewrite Hnull.
    unfold Extended.promptEntryPoint, bind, showInputBox, emit, ret. simpl.
    rewrite Hanswer. unfold then_, try_catch, bind.
    destruct file as [|c file]; [done |]. simpl.
    set (st1 := {| fs := fs st; client := client st;
                   log := (log st ++ evs0)
                          ++ [ShowInputBox entry_prompt (activeDocument env)] |}).
    destruct (vesselArgs_degrades env st1) as (evs1 & -> & Hevs1);
      [by rewrite (vessel_discovery_fails_fs env st st1 eq_refl) |].
    unfold launchClient. simpl.
    eexists. exists (evs0 ++ [ShowInputBox entry_prompt (activeDocument env)]
                      ++ evs1).
    split; [done |]. split; [done |].
    split; [simpl; by rewrite <-!app_assoc |].
    apply Forall_app. split; [done |].
    apply Forall_cons. split; [done |].
    eapply Forall_impl; [done |]. by intros [].
Qed.

Lemma vessel_failure_keeps_launch_witness :
  let env := World.host EmptyString None None SpawnFailed in
  let st := World.disk [("/ws/vessel.json", File true "{}")] in
  vessel_discovery_fails env st = true
  ∧ inputBoxAnswer env entry_prompt (activeDocument env) = Some "/tmp/foo.mo"
  ∧ (∃ st' evs,
       Extended.startServer env st = (Ok tt, st')
       ∧ client st'
         = Some {| command := "mo-ide";
                   args := ["--canister-main"; "/tmp/foo.mo"]
                             ++ split space "--a --b" |}
       ∧ log st'
         = log st ++ evs
             ++ [ClientStart
                   {| command := "mo-ide";
                      args := ["--canister-main"; "/tmp/foo.mo"]
                                ++ split space "--a --b" |}]
       ∧ Forall (λ e, is_launch e = false) evs).
Proof.
  intros env st.
  assert (H1 : vessel_discovery_fails env st = true) by (vm_compute; reflexivity).
  assert (H2 : ∀ dfxConfig, manifest_status env st ≠ Manifest dfxConfig).
  { intros dfxConfig. vm_compute. discriminate. }
  assert (H3 : inputBoxAnswer env entry_prompt (activeDocument env)
               = Some "/tmp/foo.mo") by reflexivity.
  assert (H4 : "/tmp/foo.mo" ≠ EmptyString) by discriminate.
  split; [exact H1 |]. split; [exact H3 |].
  exact (proj2 (vessel_failure_keeps_launch env st "/tmp/foo.mo" H1 H2 H3 H4)).
Defined.

(** ** Interface staging (src/unnamed/part_000) *)

Lemma slice_length (n : nat) (s : string) :
  String.length (slice n s) = String.length s - n.
Proof.
  revert s. induction n as [|n IH]; intros [|c s]; simpl; done.
Qed.

(** Dropping three characters changes every string but the empty one. *)
Lemma slice_3_neq (s : string) : s ≠ EmptyString → slice 3 s ≠ s.
Proof.
  intros Hne Heq. apply (f_equal String.length) in Heq.
  rewrite slice_length in Heq. destruct s as [|c s]; [done |].
  simpl in Heq. lia.
Qed.

Lemma copyFileSync_ok (env : Env) (src dst : string) (st st' : State) :
  copyFileSync env src dst st = (Ok tt, st') →
  ∃ text, fs st !! src = Some (File true text)
          ∧ st' = set_fs (<[dst := File true text]> (fs st)) st.
Proof.
  unfold copyFileSync. intros Hcopy.
  destruct (fs st !! src) as [[|[] text]|]; try done.
  exists text. split; [done |].
  destruct (fs st !! dst) as [[|]|]; try done;
    destruct (writable env dst); by inversion Hcopy.
Qed.

(** A successful run of the staging loop: the mappings pushed are the
    entries' aliases with their full identifiers, every entry's artifact
    ends up as a readable file under the stripped identifier, and files
    already present stay files. *)
Lemma copy_entries_ok (env : Env) (idlPath : string)
    (entries : list (string * DfxManifestCanister))
    (acc mappings : list Extended.CanisterMapping) (st st' : State) :
  Extended.copy_entries env idlPath entries acc st = (Ok mappings, st') →
  mappings
    = acc ++ map (λ entry, {| Extended.alias := entry.1;
                              Extended.id := canister_id entry.2 |}) entries
  ∧ (∀ entry, entry ∈ entries →
       ∃ text,
         fs st' !! path_join env
                     [idlPath; slice 3 (canister_id entry.2) +:+ ".did"]
         = Some (File true text))
  ∧ (∀ p text, fs st !! p = Some (File true text) →
       ∃ text', fs st' !! p = Some (File true text')).
Proof.
  revert acc st. induction entries as [|[alias info] rest IH]; intros acc st; simpl.
  - intros [= <- <-]. rewrite app_nil_r. split; [done |].
    split; [by intros ? ?%elem_of_nil | eauto].
  - unfold bind at 1. simpl. unfold bind at 1.
    destruct (copyFileSync env _ _ _) as [[[]|e] st1] eqn:Hcopy; [| done].
    apply copyFileSync_ok in Hcopy as (text & _ & ->).
    intros Hrest. apply IH in Hrest as (Hmap & Hstaged & Hkept).
    simpl in Hkept.
    split; [by rewrite Hmap, <-app_assoc |]. split.
    + intros entry [-> | Hin]%elem_of_cons; [| by apply Hstaged].
      simpl. eapply Hkept. apply lookup_insert_eq.
    + intros p text0 Hp.
      destruct (decide (path_join env [idlPath; slice 3 (canister_id info) +:+ ".did"] = p))
        as [<- | Hne].
      * eapply Hkept. apply lookup_insert_eq.
      * eapply Hkept. rewrite lookup_insert_ne by done. exact Hp.
Qed.

Lemma getDfxManifest_state (env : Env) (st : State) :
  (Extended.getDfxManifest env st).2 = st.
Proof.
  unfold Extended.getDfxManifest.
  destruct (workspaceFolders env) as [[|ws rest]|]; try done.
  unfold try_catch, bind, first_folder, ret, readFileSync.
  destruct (fs st !! _) as [[|[] text]|]; try done.
  by destruct (JSON_parse_DfxCanisterManifest env text).
Qed.

Lemma alias_arguments_of_entries
    (entries : list (string * DfxManifestCanister)) :
  flat_map (λ mapping,
              ["--actor-alias"; Extended.alias mapping; Extended.id mapping])
    (map (λ entry, {| Extended.alias := entry.1;
                      Extended.id := canister_id entry.2 |}) entries)
  = flat_map (λ entry, ["--actor-alias"; entry.1; canister_id entry.2]) entries.
Proof.
  induction entries as [|entry rest IH]; [done |].
  cbn [map flat_map]. by rewrite IH.
Qed.

(** C10, for non-empty identifiers.  When staging succeeds, the scratch directory and the
    interface manifest it read determine the result: the alias/identifier
    pairs and the arguments built from them carry every entry's full
    identifier, every entry's artifact is a file of the scratch directory
    named by the identifier without its first three characters plus ".did",
    and for a non-empty identifier the name used for the file differs from
    the identifier passed in the arguments. *)
Theorem staged_names_and_aliases (env : Env) (st st' : State)
    (idlFiles : Extended.IdlFiles) :
  Extended.copyIDLFiles env st = (Ok (Some idlFiles), st') →
  ∃ st1 canisterManifest,
    Extended.getOrCreateIDLPath env st
      = (Ok (Some (Extended.idlPath idlFiles)), st1)
    ∧ Extended.getDfxManifest env st1 = (Ok (Some canisterManifest), st1)
    ∧ Extended.canisterMappings idlFiles
      = map (λ entry, {| Extended.alias := entry.1;
                         Extended.id := canister_id entry.2 |})
          (Object_entries (manifest_canisters canisterManifest))
    ∧ Extended.idlArgs_of (Some idlFiles)
      = ["--actor-idl"; Extended.idlPath idlFiles]
          ++ flat_map (λ entry, ["--actor-alias"; entry.1; canister_id entry.2])
               (Object_entries (manifest_canisters canisterManifest))
    ∧ (∀ entry,
         entry ∈ Object_entries (manifest_canisters canisterManifest) →
         (∃ text,
            fs st' !! path_join env
                        [Extended.idlPath idlFiles;
                         slice 3 (canister_id entry.2) +:+ ".did"]
            = Some (File true text))
         ∧ (canister_id entry.2 ≠ EmptyString →
            slice 3 (canister_id entry.2) ≠ canister_id entry.2)).
Proof.
  unfold Extended.copyIDLFiles, bind. intros Hrun.
  destruct (Extended.getOrCreateIDLPath env st) as [[[idlPath|]|e] st1]; try done.
  pose proof (getDfxManifest_state env st1) as Hsame.
  destruct (Extended.getDfxManifest env st1)
    as [[[canisterManifest|]|e] st2] eqn:Hmanifest; try done.
  simpl in Hsame. subst st2.
  destruct (Extended.copy_entries env idlPath _ [] st1)
    as [[mappings|e] st3] eqn:Hloop; [| done].
  injection Hrun as <- <-.
  apply copy_entries_ok in Hloop as (Hmap & Hstaged & _). simpl in Hmap.
  exists st1, canisterManifest.
  split; [done |]. split; [done |]. split; [done |]. split.
  - unfold Extended.idlArgs_of. cbn [Extended.idlPath Extended.canisterMappings].
    f_equal. rewrite Hmap. apply alias_arguments_of_entries.
  - intros entry Hentry. split; [by apply Hstaged | apply slice_3_neq].
Qed.

Lemma staged_names_and_aliases_witness :
  let env := World.host EmptyString None None SpawnFailed in
  let st :=
    World.disk
      (World.project_one
       ++ World.interface_manifest
            "{canisters:{main:{candid_path:/ws/canisters/main/main.did,canister_id:ic:ABCD}}}"
       ++ World.artifact) in
  let idlFiles :=
    {| Extended.idlPath := "/ws/.vscode/idl";
       Extended.canisterMappings :=
         [{| Extended.alias := "main"; Extended.id := "ic:ABCD" |}] |} in
  let st' := (Extended.copyIDLFiles env st).2 in
  Extended.copyIDLFiles env st = (Ok (Some idlFiles), st')
  ∧ (∃ st1 canisterManifest,
       Extended.getOrCreateIDLPath env st = (Ok (Some "/ws/.vscode/idl"), st1)
       ∧ Extended.getDfxManifest env st1 = (Ok (Some canisterManifest), st1)
       ∧ Extended.canisterMappings idlFiles
         = map (λ entry, {| Extended.alias := entry.1;
                            Extended.id := canister_id entry.2 |})
             (Object_entries (manifest_canisters canisterManifest))
       ∧ Extended.idlArgs_of (Some idlFiles)
         = ["--actor-idl"; "/ws/.vscode/idl"]
             ++ flat_map (λ entry, ["--actor-alias"; entry.1; canister_id entry.2])
                  (Object_entries (manifest_canisters canisterManifest))
       ∧ (∀ entry,
            entry ∈ Object_entries (manifest_canisters canisterManifest) →
            (∃ text,
               fs st' !! path_join env
                           ["/ws/.vscode/idl";
                            slice 3 (canister_id entry.2) +:+ ".did"]
               = Some (File true text))
            ∧ (canister_id entry.2 ≠ EmptyString →
               slice 3 (canister_id entry.2) ≠ canister_id entry.2))).
Proof.
  intros env st idlFiles st'.
  assert (Hrun : Extended.copyIDLFiles env st = (Ok (Some idlFiles), st'))
    by (vm_compute; reflexivity).
  split; [exact Hrun |].
  exact (staged_names_and_aliases env st st' idlFiles Hrun).
Defined.

(** C10 does not extend to an entry whose identifier is empty: the artifact
    is staged as ".did", so the identifier in the file name is the empty
    string, the very identifier passed after the alias. *)
Lemma empty_identifier_staged_under_itself :
  let env := World.host EmptyString None None SpawnFailed in
  let st :=
    World.disk
      (World.project_one
       ++ World.interface_manifest
            "{canisters:{main:{candid_path:/ws/canisters/main/main.did,canister_id:}}}"
       ++ World.artifact) in
  ∃ idlFiles st',
    Extended.copyIDLFiles env st = (Ok (Some idlFiles), st')
    ∧ Extended.idlArgs_of (Some idlFiles)
      = ["--actor-idl"; "/ws/.vscode/idl"; "--actor-alias"; "main"; EmptyString]
    ∧ ∃ mapping,
        mapping ∈ Extended.canisterMappings idlFiles
        ∧ slice 3 (Extended.id mapping) = Extended.id mapping
        ∧ fs st' !! path_join env
                      [Extended.idlPath idlFiles;
                       Extended.id mapping +:+ ".did"]
          = Some (File true "service : {}").
Proof.
  intros env st.
  exists {| Extended.idlPath := "/ws/.vscode/idl";
            Extended.canisterMappings :=
              [{| Extended.alias := "main"; Extended.id := EmptyString |}] |}.
  exists (Extended.copyIDLFiles env st).2.
  split; [by vm_compute |]. split; [done |].
  exists {| Extended.alias := "main"; Extended.id := EmptyString |}.
  split; [by apply list_elem_of_singleton |]. split; [done |]. by vm_compute.
Qed.

(** The two failures the staging code catches: when the scratch directory
    cannot be had or the interface manifest cannot be read, [copyIDLFiles]
    returns [null] and the launch goes ahead without staging arguments. *)
Lemma getOrCreateIDLPath_returns (env : Env) (st : State) :
  ∃ r st', Extended.getOrCreateIDLPath env st = (Ok r, st').
Proof.
  unfold Extended.getOrCreateIDLPath. apply try_catch_returns.
  intros e st0. by eexists _, _.
Qed.

Lemma getDfxManifest_returns (env : Env) (st : State) :
  ∃ r, Extended.getDfxManifest env st = (Ok r, st).
Proof.
  pose proof (getDfxManifest_state env st) as Hsame.
  unfold Extended.getDfxManifest in *.
  destruct (workspaceFolders env); [| by eexists].
  unfold try_catch in *.
  destruct (bind _ _ st) as [[r|e] st']; simpl in *; subst; by eexists.
Qed.

Lemma staging_degrades (env : Env) (dfxConfig : DfxConfig) (target : string)
    (descriptor : DfxCanister) (st st1 : State) :
  get_property (canisters dfxConfig) target = Some descriptor →
  Extended.getOrCreateIDLPath env st = (Ok None, st1)
  ∨ (∃ idlPath, Extended.getOrCreateIDLPath env st = (Ok (Some idlPath), st1)
                ∧ Extended.getDfxManifest env st1 = (Ok None, st1)) →
  Extended.copyIDLFiles env st = (Ok None, st1)
  ∧ Extended.start env dfxConfig target st
    = launchClient {| command := standaloneBinary (config env);
                      args := ["--canister-main"; main descriptor] |} st1.
Proof.
  intros Hget Hnull.
  assert (Hstaged : Extended.copyIDLFiles env st = (Ok None, st1)).
  { unfold Extended.copyIDLFiles, bind.
    destruct Hnull as [-> | (idlPath & -> & ->)]; done. }
  split; [done |]. unfold Extended.start, bind.
  by rewrite Hstaged, (member_own _ _ _ Hget).
Qed.

Lemma start_propagates_staging_exception (env : Env) (dfxConfig : DfxConfig)
    (target : string) (e : JsError) (st st1 : State) :
  Extended.copyIDLFiles env st = (Throw e, st1) →
  Extended.start env dfxConfig target st = (Throw e, st1).
Proof. intros Hstaged. unfold Extended.start, bind. by rewrite Hstaged. Qed.

(** C1.  Staging is not best-effort for a missing artifact.  Here the
    workspace holds a one-target project and an interface manifest whose
    artifact /ws/canisters/main/main.did does not exist: [copyFileSync]
    throws ENOENT, nothing catches it, and [startServer] ends in that
    exception after one console line, with no client started. *)
Theorem staging_copy_failure_aborts_launch :
  let env := World.host EmptyString None None SpawnFailed in
  let st :=
    World.disk
      (World.project_one
       ++ World.interface_manifest
            "{canisters:{main:{candid_path:/ws/canisters/main/main.did,canister_id:ic:ABCD}}}") in
  manifest_status env st = Manifest World.one_target
  ∧ fs st !! "/ws/canisters/main/main.did" = None
  ∧ (Extended.copyIDLFiles env st).1 = Throw (SystemError "ENOENT")
  ∧ (Extended.startServer env st).1 = Throw (SystemError "ENOENT")
  ∧ log (Extended.startServer env st).2 = [ConsoleLog ["ic:ABCD"; "ABCD"]]
  ∧ client (Extended.startServer env st).2 = None.
Proof. intros env st. repeat split; by vm_compute. Qed.

(** ** End-to-end scenarios *)

(** A one-target project and no configured default: the lean variant runs
    dfx as found on the search path, the extended one the standalone
    binary on the target's main file. *)
Example scenario_single_target :
  let lookup := Some "/usr/local/bin/dfx" in
  client (Lean.activate (World.host EmptyString None lookup SpawnFailed)
            (World.disk World.project_one)).2
    = Some {| command := "/usr/local/bin/dfx";
              args := ["_language-service"; "main"] |}
  ∧ client (Extended.activate (World.host EmptyString None lookup SpawnFailed)
              (World.disk World.project_one)).2
    = Some {| command := "mo-ide";
              args := ["--canister-main"; "src/main.mo"] |}.
Proof. split; by vm_compute. Qed.

(** No manifest, the proposed entry point accepted unchanged, and a working
    package listing: its tokens sit between the entry point and the extra
    arguments. *)
Example scenario_standalone_with_packages :
  client (Extended.activate
            (World.host EmptyString None None
               (Exited 0 "--package base /cache/base/src"))
            (World.disk [("/ws/vessel.json", File true "{}")])).2
    = Some {| command := "mo-ide";
              args := ["--canister-main"; "/tmp/foo.mo";
                       "--package"; "base"; "/cache/base/src";
                       "--a"; "--b"] |}.
Proof. by vm_compute. Qed.

(** A staged interface: the artifact is copied under the stripped
    identifier and the alias is passed with the full one. *)
Example scenario_staged_interface :
  let st' :=
    (Extended.activate (World.host EmptyString None None SpawnFailed)
       (World.disk
          (World.project_one
           ++ World.interface_manifest
                "{canisters:{main:{candid_path:/ws/canisters/main/main.did,canister_id:ic:ABCD}}}"
           ++ World.artifact))).2 in
  client st'
    = Some {| command := "mo-ide";
              args := ["--canister-main"; "src/main.mo";
                       "--actor-idl"; "/ws/.vscode/idl";
                       "--actor-alias"; "main"; "ic:ABCD"] |}
  ∧ fs st' !! "/ws/.vscode/idl/ABCD.did" = Some (File true "service : {}").
Proof. split; by vm_compute. Qed.

(** * Further properties *)

(** ** Runs as sequences of steps *)

Lemma apply_steps_app (steps1 steps2 : list Step) (st : State) :
  apply_steps (steps1 ++ steps2) st = apply_steps steps2 (apply_steps steps1 st).
Proof. apply foldl_app. Qed.

Section Performs.
Context {A B : Type} (K : Step → Prop).

Lemma performs_ret (Q : A → Prop) (a : A) : Q a → performs K Q (ret a).
Proof.
  intros Ha st. exists []. split; [done |]. split; [done |].
  by intros a' [= <-].
Qed.

Lemma performs_throw (Q : A → Prop) (e : JsError) : performs K Q (@throw A e).
Proof. intros st. exists []. by repeat split. Qed.

Lemma performs_bind (Q : A → Prop) (Q' : B → Prop) (m : M A) (k : A → M B) :
  performs K Q m → (∀ a, Q a → performs K Q' (k a)) → performs K Q' (bind m k).
Proof.
  intros Hm Hk st. unfold bind.
  destruct (Hm st) as (steps & Hsteps & Hst & Hres).
  destruct (m st) as [[a|e] st1]; simpl in *.
  - destruct (Hk a (Hres a eq_refl) st1) as (steps' & Hsteps' & Hst' & Hres').
    exists (steps ++ steps'). split; [by apply Forall_app |].
    split; [by rewrite apply_steps_app, <-Hst |]. done.
  - exists steps. by repeat split.
Qed.

Lemma performs_try_catch (Q : A → Prop) (body : M A) (handler : JsError → M A) :
  performs K Q body → (∀ e, performs K Q (handler e)) →
  performs K Q (try_catch body handler).
Proof.
  intros Hm Hk st. unfold try_catch.
  destruct (Hm st) as (steps & Hsteps & Hst & Hres).
  destruct (body st) as [[a|e] st1]; simpl in *.
  - exists steps. by repeat split.
  - destruct (Hk e st1) as (steps' & Hsteps' & Hst' & Hres').
    exists (steps ++ steps'). split; [by apply Forall_app |].
    split; [by rewrite apply_steps_app, <-Hst |]. done.
Qed.

Lemma performs_unchanged (m : M A) :
  (∀ st, (m st).2 = st) → performs K (λ _, True) m.
Proof. intros Hm st. exists []. by repeat split. Qed.

Lemma performs_weaken (K' : Step → Prop) (Q Q' : A → Prop) (m : M A) :
  (∀ s, K' s → K s) → (∀ a, Q a → Q' a) → performs K' Q m → performs K Q' m.
Proof.
  intros HK HQ Hm st. destruct (Hm st) as (steps & Hsteps & Hst & Hres).
  exists steps. split; [by eapply Forall_impl |]. split; [done |].
  intros a Ha. by apply HQ, Hres.
Qed.
End Performs.

Lemma performs_emit (K : Step → Prop) (e : Event) :
  K (StepEmit e) → performs K (λ _, True) (emit e).
Proof.
  intros He st. exists [StepEmit e]. split; [by apply Forall_singleton | done].
Qed.

Lemma performs_launchClient (K : Step → Prop) (spec : LaunchSpec) :
  K (StepLaunch spec) → performs K (λ _, True) (launchClient spec).
Proof.
  intros He st. exists [StepLaunch spec].
  split; [by apply Forall_singleton | done].
Qed.

Lemma performs_mkdir_one (K : Step → Prop) (env : Env) (blocked p : string) :
  K (StepMkdir p) → performs K (λ _, True) (mkdir_one env blocked p).
Proof.
  intros He st. unfold mkdir_one.
  destruct (fs st !! p) as [[|readable text]|] eqn:Hp;
    try (exists []; by repeat split).
  destruct (writable env p); [| exists []; by repeat split].
  exists [StepMkdir p]. split; [by apply Forall_singleton |].
  split; [| done]. simpl. by rewrite Hp.
Qed.

Lemma performs_mkdirSync (K : Step → Prop) (env : Env) (p : string) :
  (∀ q, q ∈ path_ancestors env p ++ [p] → K (StepMkdir q)) →
  performs K (λ _, True) (mkdirSync env p).
Proof.
  unfold mkdirSync. induction (path_ancestors env p) as [|q above IH];
    intros He; simpl.
  - apply performs_mkdir_one, He. by left.
  - apply (performs_bind _ (λ _, True)).
    + apply performs_mkdir_one, He. by left.
    + intros _ _. apply IH. intros q' Hq'. apply He. by right.
Qed.

Lemma performs_copyFileSync (K : Step → Prop) (env : Env) (src dst : string) :
  (∀ text, K (StepCopy dst text)) →
  performs K (λ _, True) (copyFileSync env src dst).
Proof.
  intros He st. unfold copyFileSync.
  destruct (fs st !! src) as [[|[] text]|]; try (exists []; by repeat split).
  destruct (fs st !! dst) as [[|]|]; try (exists []; by repeat split).
  all: destruct (writable env dst); try (exists []; by repeat split).
  all: exists [StepCopy dst text]; split; [by apply Forall_singleton | done].
Qed.

Lemma performs_then {A} (K : Step → Prop) (answer : A) (cb : A → M unit) :
  (∀ e, K (StepEmit (UnhandledRejection e))) →
  performs K (λ _, True) (cb answer) →
  performs K (λ _, True) (then_ answer cb).
Proof.
  intros Hrej Hcb. apply performs_try_catch; [done |].
  intros e. by apply performs_emit.
Qed.

Ltac performs_step :=
  first
    [ apply performs_ret; done
    | apply performs_throw
    | apply performs_unchanged; intros ?;
        first [ apply existsSync_state | apply readFileSync_state
              | apply execSync_state | apply first_folder_state ]
    | apply (performs_bind _ (λ _, True)); [| intros ? _]
    | apply performs_try_catch; [| intros ?] ].

Lemma performs_isDfxProject (K : Step → Prop) (env : Env) :
  performs K (λ _, True) (isDfxProject env).
Proof.
  apply performs_unchanged. intros st. by rewrite isDfxProject_spec.
Qed.

Lemma performs_showInputBox (K : Step → Prop) (env : Env) (prompt : string)
    (value : option string) :
  K (StepEmit (ShowInputBox prompt value)) →
  performs K (λ _, True) (showInputBox env prompt value).
Proof.
  intros HK. unfold showInputBox. performs_step; [by apply performs_emit |].
  performs_step.
Qed.

Lemma performs_showQuickPick (K : Step → Prop) (env : Env) (items : list string) :
  K (StepEmit (ShowQuickPick items)) →
  performs K (λ _, True) (showQuickPick env items).
Proof.
  intros HK. unfold showQuickPick. performs_step; [by apply performs_emit |].
  performs_step.
Qed.

Lemma performs_deactivate (K : Step → Prop) :
  K (StepEmit ClientStop) → performs K (λ _, True) deactivate.
Proof.
  intros HK st. unfold deactivate. destruct (client st).
  - exists [StepEmit ClientStop]. split; [by apply Forall_singleton | done].
  - exists []. by repeat split.
Qed.

Section Runs.
Context {A B : Type} (K : Step → Prop).

Lemma runs_of_performs (Q : A → Prop) (m : M A) : performs K Q m → runs K m.
Proof.
  intros Hm st. destruct (Hm st) as (steps & Hsteps & Hst & _).
  exists steps. split; [done | by left].
Qed.

Lemma runs_bind (Q : A → Prop) (m : M A) (k : A → M B) :
  performs K Q m → (∀ a, Q a → runs K (k a)) → runs K (bind m k).
Proof.
  intros Hm Hk st. unfold bind.
  destruct (Hm st) as (steps & Hsteps & Hst & Hres).
  destruct (m st) as [[a|e] st1]; simpl in *.
  - destruct (Hk a (Hres a eq_refl) st1) as (steps' & Hsteps' & Hend).
    exists (steps ++ steps'). split; [by apply Forall_app |].
    destruct Hend as [Hst' | (spec & b & Hst')].
    + left. by rewrite apply_steps_app, <-Hst.
    + right. exists spec, b.
      by rewrite <-app_assoc, apply_steps_app, <-Hst.
  - exists steps. split; [done | by left].
Qed.

Lemma runs_weaken (K' : Step → Prop) (m : M A) :
  (∀ s, K' s → K s) → runs K' m → runs K m.
Proof.
  intros HK Hm st. destruct (Hm st) as (steps & Hsteps & Hend).
  exists steps. split; [by eapply Forall_impl | done].
Qed.
End Runs.

Lemma runs_launchClient (K : Step → Prop) (spec : LaunchSpec) :
  runs K (launchClient spec).
Proof. intros st. exists []. split; [done |]. right. by exists spec, tt. Qed.

Lemma runs_then {A} (K : Step → Prop) (answer : A) (cb : A → M unit) :
  (∀ e, K (StepEmit (UnhandledRejection e))) →
  runs K (cb answer) → runs K (then_ answer cb).
Proof.
  intros Hrej Hcb st. unfold then_, try_catch.
  destruct (Hcb st) as (steps & Hsteps & [Hst | (spec & a & Hst)]).
  - destruct (cb answer st) as [[a|e] st1]; simpl in *.
    + exists steps. split; [done | by left].
    + exists (steps ++ [StepEmit (UnhandledRejection e)]).
      split; [apply Forall_app; split; [done | by apply Forall_singleton] |].
      left. by rewrite apply_steps_app, <-Hst.
  - rewrite Hst. exists steps. split; [done |]. right. by exists spec, a.
Qed.

(** *** What sequences of steps do to the state *)

Lemma apply_steps_log (steps : list Step) (st : State) :
  log (apply_steps steps st) = log st ++ flat_map step_events steps.
Proof.
  revert st. induction steps as [|s steps IH]; intros st; simpl.
  - by rewrite app_nil_r.
  - unfold apply_steps in *. simpl. rewrite IH.
    destruct s as [e|q|dst text|spec]; simpl; try destruct (fs st !! q);
      by rewrite <-?app_assoc.
Qed.

Lemma apply_steps_client (steps : list Step) (st : State) :
  Forall no_launch steps → client (apply_steps steps st) = client st.
Proof.
  revert st. induction steps as [|s steps IH]; intros st Hsteps; [done |].
  apply Forall_cons in Hsteps as [Hs Hsteps]. unfold apply_steps in *. simpl.
  rewrite IH by done.
  destruct s as [e|q|dst text|spec]; simpl; try destruct (fs st !! q); done.
Qed.

Lemma apply_steps_no_launch_events (steps : list Step) :
  Forall no_launch steps →
  Forall (λ e, is_launch e = false) (flat_map step_events steps).
Proof.
  induction 1 as [|s steps Hs _ IH]; simpl; [done |].
  apply Forall_app. split; [| done].
  destruct s; simpl in *; try done. by apply Forall_singleton.
Qed.

Lemma apply_steps_fs_lean (steps : list Step) (st : State) :
  Forall lean_step steps → fs (apply_steps steps st) = fs st.
Proof.
  revert st. induction steps as [|s steps IH]; intros st Hsteps; [done |].
  apply Forall_cons in Hsteps as [Hs Hsteps]. unfold apply_steps in *. simpl.
  rewrite IH by done. by destruct s.
Qed.

Lemma apply_step_fs_keeps (st : State) (s : Step) (p : string) :
  is_Some (fs st !! p) → is_Some (fs (apply_step st s) !! p).
Proof.
  intros Hp. destruct s as [e|q|dst text|spec]; simpl; try done.
  - destruct (fs st !! q); [done |]. simpl.
    rewrite lookup_insert; case_decide; [by eexists | done].
  - rewrite lookup_insert; case_decide; [by eexists | done].
Qed.

Lemma apply_steps_fs_keeps (steps : list Step) (st : State) (p : string) :
  is_Some (fs st !! p) → is_Some (fs (apply_steps steps st) !! p).
Proof.
  revert st. induction steps as [|s steps IH]; intros st Hp; [done |].
  unfold apply_steps in *. simpl. by apply IH, apply_step_fs_keeps.
Qed.

(** What a run of [startServer] can have done to one path: nothing; or
    created it as a directory where nothing was, if it is the scratch
    directory or one of its ancestors; or left a readable file there, if it
    is the scratch directory joined with a name ending in .did. *)
Lemma apply_steps_fs_changes (env : Env) (steps : list Step) (st : State)
    (p : string) :
  Forall (restart_step env) steps →
  fs (apply_steps steps st) !! p = fs st !! p
  ∨ (∃ dir,
       scratch_dir env = Some dir
       ∧ p ∈ scratch_chain env dir
       ∧ fs st !! p = None
       ∧ fs (apply_steps steps st) !! p = Some Dir)
  ∨ (∃ dir name text,
       scratch_dir env = Some dir
       ∧ p = path_join env [dir; name +:+ ".did"]
       ∧ fs (apply_steps steps st) !! p = Some (File true text)).
Proof.
  intros Hsteps. revert st.
  induction Hsteps as [|s steps Hs _ IH]; intros st; [by left |].
  change (apply_steps (s :: steps) st)
    with (apply_steps steps (apply_step st s)).
  destruct (IH (apply_step st s))
    as [Hsame | [(dir & Hdir & Hin & Hnone & Hnow) | Hcopied]].
  - rewrite Hsame. destruct Hs as [-> | Hs]; [by left |].
    destruct s as [e|q|dst text|spec]; simpl in *; try by left.
    + destruct Hs as (dir & Hdir & Hin).
      destruct (fs st !! q) eqn:Hq; [by left |]. simpl.
      destruct (decide (q = p)) as [-> | Hne].
      * right; left. exists dir. by rewrite lookup_insert_eq.
      * left. by rewrite lookup_insert_ne.
    + destruct Hs as (dir & name & Hdir & ->).
      destruct (decide (path_join env [dir; name +:+ ".did"] = p))
        as [<- | Hne].
      * right; right. exists dir, name, text. by rewrite lookup_insert_eq.
      * left. by rewrite lookup_insert_ne.
  - right; left. exists dir. split; [done |]. split; [done |].
    split; [| done]. destruct (fs st !! p) eqn:Hp; [| done].
    assert (Hkept : is_Some (fs (apply_step st s) !! p))
      by (apply apply_step_fs_keeps; by eexists).
    rewrite Hnone in Hkept. by destruct Hkept.
  - by right; right.
Qed.

Lemma last_started_snoc (events : list Event) (e : Event) :
  last_started (events ++ [e])
  = match e with
    | ClientStart spec => Some spec
    | _ => last_started events
    end.
Proof.
  induction events as [|e' events IH]; simpl; [by destruct e |].
  rewrite IH. by destruct e.
Qed.

Lemma apply_step_tracks (st : State) (s : Step) :
  match s with StepEmit e => is_launch e = false | _ => True end →
  client_tracks_log st → client_tracks_log (apply_step st s).
Proof.
  unfold client_tracks_log. intros Hs Hst.
  destruct s as [e|q|dst text|spec]; simpl; try done.
  - rewrite last_started_snoc. by destruct e.
  - by destruct (fs st !! q).
  - by rewrite last_started_snoc.
Qed.

Lemma apply_steps_tracks (steps : list Step) (st : State) :
  Forall (λ s, match s with StepEmit e => is_launch e = false | _ => True end)
    steps →
  client_tracks_log st → client_tracks_log (apply_steps steps st).
Proof.
  intros Hsteps. revert st.
  induction Hsteps as [|s steps Hs _ IH]; intros st Hst; [done |].
  unfold apply_steps in *. simpl. by apply IH, apply_step_tracks.
Qed.

(** *** The lean variant *)

Lemma Lean_getDfx_performs (env : Env) :
  performs lean_step (λ _, True) (Lean.getDfx env).
Proof.
  unfold Lean.getDfx. performs_step.
  - destruct (which_sync env _); performs_step.
  - performs_step; [performs_step |].
    destruct a; simpl; [performs_step |].
    performs_step; [by apply performs_emit | performs_step].
Qed.

Lemma Lean_start_runs (env : Env) (target : string) :
  runs lean_step (Lean.start env target).
Proof.
  unfold Lean.start. eapply runs_bind; [apply Lean_getDfx_performs |].
  intros found _. apply runs_launchClient.
Qed.

Lemma Lean_launchDfxProject_runs (env : Env) (dfxConfig : DfxConfig) :
  runs lean_step (Lean.launchDfxProject env dfxConfig).
Proof.
  unfold Lean.launchDfxProject.
  destruct (negb _); [apply Lean_start_runs |].
  destruct (Object_keys (canisters dfxConfig)) as [|k1 [|k2 ks]];
    [| apply Lean_start_runs |].
  all: eapply runs_bind; [by apply performs_showQuickPick |].
  all: intros c _; apply runs_then; [done |].
  all: destruct c as [picked|];
         [| eapply runs_of_performs; by apply (performs_ret _ (λ _, True))].
  all: destruct (truthy _); [apply Lean_start_runs |].
  all: eapply runs_of_performs; by apply (performs_ret _ (λ _, True)).
Qed.

Lemma Lean_promptEntryPoint_runs (env : Env) :
  runs lean_step (Lean.promptEntryPoint env).
Proof.
  unfold Lean.promptEntryPoint.
  eapply runs_bind; [by apply performs_showInputBox |].
  intros entryPoint _. apply runs_then; [done |].
  destruct entryPoint as [file|];
    [| eapply runs_of_performs; by apply (performs_ret _ (λ _, True))].
  destruct (truthy _); [apply runs_launchClient |].
  eapply runs_of_performs; by apply (performs_ret _ (λ _, True)).
Qed.

Lemma Lean_activate_runs (env : Env) : runs lean_step (Lean.activate env).
Proof.
  unfold Lean.activate. eapply runs_bind; [apply performs_isDfxProject |].
  intros [dfxConfig|] _;
    [apply Lean_launchDfxProject_runs | apply Lean_promptEntryPoint_runs].
Qed.

(** *** The extended variant *)

Lemma Extended_getOrCreateIDLPath_performs (env : Env) :
  performs (staging_step env)
    (λ r, ∀ p, r = Some p → scratch_dir env = Some p)
    (Extended.getOrCreateIDLPath env).
Proof.
  unfold Extended.getOrCreateIDLPath.
  apply performs_try_catch; [| intros e; by apply performs_ret].
  destruct (workspaceFolders env) as [[|ws rest]|] eqn:Hwsf;
    [| | by apply performs_ret].
  - apply (performs_bind _ (λ _, False)); [apply performs_throw | done].
  - apply (performs_bind _ (λ a, a = ws)); [by apply performs_ret |].
    intros ? ->.
    assert (Hdir : scratch_dir env = Some (path_join env [ws; ".vscode"; "idl"]))
      by (unfold scratch_dir; by rewrite Hwsf).
    performs_step; [performs_step |].
    destruct a; [apply performs_ret; by intros p [= <-] |].
    apply (performs_bind _ (λ _, True)).
    { apply performs_mkdirSync. intros q Hq. simpl. by eexists. }
    intros _ _. apply performs_ret. by intros p [= <-].
Qed.

Lemma Extended_copy_entries_performs (env : Env) (idlPath : string)
    (entries : list (string * DfxManifestCanister))
    (acc : list Extended.CanisterMapping) :
  scratch_dir env = Some idlPath →
  performs (staging_step env) (λ _, True)
    (Extended.copy_entries env idlPath entries acc).
Proof.
  intros Hdir. revert acc.
  induction entries as [|[alias info] rest IH]; intros acc; simpl.
  - performs_step.
  - performs_step; [by apply performs_emit |].
    performs_step; [| apply IH].
    apply performs_copyFileSync. intros text. simpl. by eexists _, _.
Qed.

Lemma Extended_copyIDLFiles_performs (env : Env) :
  performs (staging_step env) (λ _, True) (Extended.copyIDLFiles env).
Proof.
  unfold Extended.copyIDLFiles.
  eapply performs_bind; [apply Extended_getOrCreateIDLPath_performs |].
  intros [idlPath|] Hdir; [| performs_step].
  performs_step; [apply performs_unchanged, getDfxManifest_state |].
  destruct a; [| performs_step].
  performs_step; [| performs_step].
  apply Extended_copy_entries_performs. by apply Hdir.
Qed.

Lemma staging_step_extended (env : Env) (s : Step) :
  staging_step env s → extended_step env s.
Proof. destruct s as [[]| | |]; simpl; try done. Qed.

Lemma Extended_start_runs (env : Env) (dfxConfig : DfxConfig) (target : string) :
  runs (extended_step env) (Extended.start env dfxConfig target).
Proof.
  unfold Extended.start. eapply runs_bind.
  { eapply performs_weaken; [apply staging_step_extended | |
                             apply Extended_copyIDLFiles_performs]. done. }
  intros idlFiles _. eapply (runs_bind _ (λ _, True)).
  { destruct (member _ _); performs_step. }
  intros entry _. apply runs_launchClient.
Qed.

Lemma Extended_launchDfxProject_runs (env : Env) (dfxConfig : DfxConfig) :
  runs (extended_step env) (Extended.launchDfxProject env dfxConfig).
Proof.
  unfold Extended.launchDfxProject.
  destruct (negb _); [apply Extended_start_runs |].
  destruct (Object_keys (canisters dfxConfig)) as [|k1 [|k2 ks]];
    [| apply Extended_start_runs |].
  all: eapply runs_bind; [by apply performs_showQuickPick |].
  all: intros c _; apply runs_then; [done |].
  all: destruct c as [picked|];
         [| eapply runs_of_performs; by apply (performs_ret _ (λ _, True))].
  all: destruct (truthy _); [apply Extended_start_runs |].
  all: eapply runs_of_performs; by apply (performs_ret _ (λ _, True)).
Qed.

Lemma Extended_vesselArgs_performs (env : Env) :
  performs (extended_step env) (λ _, True) (Extended.vesselArgs env).
Proof.
  unfold Extended.vesselArgs. performs_step.
  - performs_step.
    + destruct (workspaceFolders env); performs_step.
    + performs_step; [performs_step |].
      destruct (negb _); [performs_step |].
      performs_step; performs_step.
  - performs_step; [by apply performs_emit | performs_step].
Qed.

Lemma Extended_promptEntryPoint_runs (env : Env) :
  runs (extended_step env) (Extended.promptEntryPoint env).
Proof.
  unfold Extended.promptEntryPoint.
  eapply runs_bind; [by apply performs_showInputBox |].
  intros entryPoint _. apply runs_then; [done |].
  destruct entryPoint as [file|];
    [| eapply runs_of_performs; by apply (performs_ret _ (λ _, True))].
  destruct (truthy _);
    [| eapply runs_of_performs; by apply (performs_ret _ (λ _, True))].
  eapply runs_bind; [apply Extended_vesselArgs_performs |].
  intros vessel _. apply runs_launchClient.
Qed.

(** [startServer] after [stopClient]: detection and resolution. *)
Lemma Extended_resolution_runs (env : Env) :
  runs (extended_step env)
    (dfxConfig <- isDfxProject env ;;
     match dfxConfig with
     | Some dfxConfig => Extended.launchDfxProject env dfxConfig
     | None => Extended.promptEntryPoint env
     end).
Proof.
  eapply runs_bind; [apply performs_isDfxProject |].
  intros [dfxConfig|] _;
    [apply Extended_launchDfxProject_runs | apply Extended_promptEntryPoint_runs].
Qed.

Lemma Extended_stopClient_performs (env : Env) :
  performs (restart_step env) (λ _, True) Extended.stopClient.
Proof.
  intros st. unfold Extended.stopClient. destruct (client st).
  - exists [StepEmit ClientStop].
    split; [apply Forall_singleton; by left | done].
  - exists []. by repeat split.
Qed.

Lemma Extended_startServer_runs (env : Env) :
  runs (restart_step env) (Extended.startServer env).
Proof.
  unfold Extended.startServer.
  eapply runs_bind; [apply Extended_stopClient_performs |].
  intros _ _. eapply runs_weaken; [| apply Extended_resolution_runs].
  intros s Hs. by right.
Qed.

(** ** One client per run, and the variable that refers to it *)

Lemma lean_step_no_launch (s : Step) : lean_step s → no_launch s.
Proof. destruct s; simpl; tauto. Qed.

Lemma restart_step_no_launch (env : Env) (s : Step) :
  restart_step env s → no_launch s.
Proof. intros [-> | Hs]; [done |]. destruct s; simpl in *; tauto. Qed.

Lemma runs_starts_at_most_once {A} (K : Step → Prop) (m : M A) :
  (∀ s, K s → no_launch s) → runs K m → starts_at_most_once m.
Proof.
  intros HK Hm st. destruct (Hm st) as (steps & Hsteps & Hend).
  apply (Forall_impl _ _ _ Hsteps) in HK.
  destruct Hend as [Hst | (spec & a & Hst)].
  - exists (flat_map step_events steps). rewrite Hst.
    split; [apply apply_steps_log |]. left.
    split; [by apply apply_steps_no_launch_events | by apply apply_steps_client].
  - exists (flat_map step_events steps ++ [ClientStart spec]). rewrite Hst.
    simpl. split.
    { by rewrite apply_steps_log, flat_map_app. }
    right. exists (flat_map step_events steps), spec, a.
    split; [done |]. split; [by apply apply_steps_no_launch_events |].
    split; [| done]. simpl. by rewrite apply_steps_app.
Qed.

(** X8.  A run of either entry point starts at most one client, and a
    client it starts is the last thing it does: nothing is logged after the
    start, [client] is the client just started, and the run returned
    normally.  A run that starts none leaves [client] as it was. *)
Theorem client_started_at_most_once (env : Env) :
  starts_at_most_once (Lean.activate env)
  ∧ starts_at_most_once (Extended.startServer env).
Proof.
  split.
  - eapply runs_starts_at_most_once;
      [apply lean_step_no_launch | apply Lean_activate_runs].
  - eapply runs_starts_at_most_once;
      [apply restart_step_no_launch | apply Extended_startServer_runs].
Qed.

Lemma runs_tracks {A} (K : Step → Prop) (m : M A) (st : State) :
  (∀ s, K s → no_launch s) → runs K m →
  client_tracks_log st → client_tracks_log (m st).2.
Proof.
  intros HK Hm Hst. destruct (Hm st) as (steps & Hsteps & Hend).
  assert (Hquiet : Forall (λ s, match s with
                                | StepEmit e => is_launch e = false
                                | _ => True
                                end) steps).
  { eapply Forall_impl; [exact Hsteps |].
    intros s Hs%HK. by destruct s. }
  destruct Hend as [-> | (spec & a & ->)]; cbn [snd].
  - by apply apply_steps_tracks.
  - rewrite apply_steps_app.
    apply (apply_step_tracks (apply_steps steps st) (StepLaunch spec)); [done |].
    by apply apply_steps_tracks.
Qed.

Lemma Extended_startServer_tracks (env : Env) (st : State) :
  client_tracks_log st → client_tracks_log (Extended.startServer env st).2.
Proof.
  intros Hst.
  eapply runs_tracks; [apply restart_step_no_launch
                      | apply Extended_startServer_runs | done].
Qed.

(** X9.  The module variable [client] always refers to the client started
    last: if it does before a run of [activate], [startServer] or
    [deactivate], it does afterwards. *)
Theorem client_refers_to_last_started (env : Env) (st : State) :
  client_tracks_log st →
  client_tracks_log (Lean.activate env st).2
  ∧ client_tracks_log (Extended.startServer env st).2
  ∧ client_tracks_log (deactivate st).2.
Proof.
  intros Hst. split; [| split].
  - eapply runs_tracks; [apply lean_step_no_launch | apply Lean_activate_runs
                        | done].
  - eapply runs_tracks; [apply restart_step_no_launch
                        | apply Extended_startServer_runs | done].
  - eapply (runs_tracks (λ s, s = StepEmit ClientStop)); [by intros s -> | | done].
    eapply runs_of_performs. by apply performs_deactivate.
Qed.

Lemma client_refers_to_last_started_witness :
  let env := World.host EmptyString None None SpawnFailed in
  let st := World.disk World.project_one in
  client_tracks_log st
  ∧ client_tracks_log (Lean.activate env st).2
  ∧ client_tracks_log (Extended.startServer env st).2
  ∧ client_tracks_log (deactivate st).2.
Proof.
  intros env st.
  assert (Hst : client_tracks_log st) by reflexivity.
  split; [exact Hst |]. exact (client_refers_to_last_started env st Hst).
Defined.

Lemma last_started_None (events : list Event) :
  last_started events = None ↔ Forall (λ e, is_launch e = false) events.
Proof.
  induction events as [|e events IH]; simpl; [done |].
  rewrite Forall_cons, <-IH.
  destruct (last_started events) as [spec|].
  - split; [done | by intros [_ ?]].
  - destruct e; simpl; (split; [done | by intros [? _]]) || (by split).
Qed.

(** X10.  Deactivation after a start attempt.  From a state in which
    [client] refers to the client started last, run [startServer] and then
    [deactivate]: [deactivate] returns [undefined] and does nothing exactly
    when no client start is on the log, and otherwise asks the client to
    stop, which is all it does. *)
Theorem deactivate_after_startServer (env : Env) (st : State) :
  client_tracks_log st →
  (Forall (λ e, is_launch e = false) (log (Extended.startServer env st).2) →
   deactivate (Extended.startServer env st).2
   = (Ok None, (Extended.startServer env st).2))
  ∧ (¬ Forall (λ e, is_launch e = false) (log (Extended.startServer env st).2) →
     deactivate (Extended.startServer env st).2
     = (Ok (Some tt),
        apply_step (Extended.startServer env st).2 (StepEmit ClientStop))).
Proof.
  intros Hst.
  pose proof (Extended_startServer_tracks env st Hst) as Htracks.
  set (st' := (Extended.startServer env st).2) in *.
  unfold client_tracks_log in Htracks. unfold deactivate.
  split; intros Hlog.
  - apply last_started_None in Hlog. rewrite Hlog in Htracks.
    by rewrite Htracks.
  - destruct (client st') eqn:Hclient; [done |].
    exfalso. apply Hlog, last_started_None. by rewrite <-Htracks.
Qed.

Lemma deactivate_after_startServer_witness :
  let env := World.host EmptyString None None SpawnFailed in
  let st := World.disk World.project_one in
  client_tracks_log st
  ∧ ¬ Forall (λ e, is_launch e = false) (log (Extended.startServer env st).2)
  ∧ deactivate (Extended.startServer env st).2
    = (Ok (Some tt),
       apply_step (Extended.startServer env st).2 (StepEmit ClientStop)).
Proof.
  intros env st.
  assert (Hst : client_tracks_log st) by reflexivity.
  assert (Hlog : ¬ Forall (λ e, is_launch e = false)
                     (log (Extended.startServer env st).2)).
  { vm_compute. intros H. inversion H as [|? ? Hhead _]. discriminate Hhead. }
  split; [exact Hst |]. split; [exact Hlog |].
  exact (proj2 (deactivate_after_startServer env st Hst) Hlog).
Defined.

(** ** What the runs do to the file system *)

(** X4.  The lean variant only reads the file system: whatever the
    settings, the manifest and the answers, [activate] leaves every file as
    it was; it also never asks a client to stop. *)
Theorem Lean_activate_reads_only (env : Env) (st : State) :
  fs (Lean.activate env st).2 = fs st
  ∧ ∃ evs, log (Lean.activate env st).2 = log st ++ evs ∧ ClientStop ∉ evs.
Proof.
  destruct (Lean_activate_runs env st) as (steps & Hsteps & Hend).
  assert (Hstop : ClientStop ∉ flat_map step_events steps).
  { clear Hend. induction Hsteps as [|s steps Hs _ IH]; simpl.
    - by intros ?%elem_of_nil.
    - intros [Hin | Hin]%elem_of_app; [| done].
      destruct s as [e| | |]; simpl in *; try done.
      apply list_elem_of_singleton in Hin. by destruct Hs. }
  destruct Hend as [-> | (spec & a & ->)]; cbn [snd].
  - split; [by apply apply_steps_fs_lean |].
    exists (flat_map step_events steps). by rewrite apply_steps_log.
  - rewrite apply_steps_app. split; [simpl; by apply apply_steps_fs_lean |].
    exists (flat_map step_events steps ++ [ClientStart spec]).
    split; [simpl; by rewrite apply_steps_log, <-app_assoc |].
    intros [Hin | Hin%list_elem_of_singleton]%elem_of_app; done.
Qed.

(** X5.  What [startServer] does to the file system, path by path.  A path
    holds afterwards what it held before, unless it is the scratch directory
    <workspace>/.vscode/idl or one of its ancestors and has been created as
    a directory where nothing was, or it is what [path.join] makes of the
    scratch directory and a name ending in .did and now holds a readable
    file.  No entry of the file system disappears.  The name of a staged
    file is cut from an identifier of the interface manifest and is not
    checked, which is why nothing is said about where such a path lies. *)
Theorem Extended_startServer_file_changes (env : Env) (st : State)
    (p : string) :
  (fs (Extended.startServer env st).2 !! p = fs st !! p
   ∨ (∃ dir,
        scratch_dir env = Some dir
        ∧ p ∈ path_ancestors env dir ++ [dir]
        ∧ fs st !! p = None
        ∧ fs (Extended.startServer env st).2 !! p = Some Dir)
   ∨ (∃ dir name text,
        scratch_dir env = Some dir
        ∧ p = path_join env [dir; name +:+ ".did"]
        ∧ fs (Extended.startServer env st).2 !! p = Some (File true text)))
  ∧ (is_Some (fs st !! p) → is_Some (fs (Extended.startServer env st).2 !! p)).
Proof.
  destruct (Extended_startServer_runs env st) as (steps & Hsteps & Hend).
  destruct Hend as [-> | (spec & a & ->)]; cbn [snd].
  - split; [by apply apply_steps_fs_changes | apply apply_steps_fs_keeps].
  - rewrite apply_steps_app. simpl. split.
    + by apply (apply_steps_fs_changes env steps st p).
    + apply apply_steps_fs_keeps.
Qed.

(** A run that stages one interface in a workspace that has no .vscode
    directory yet: both .vscode and .vscode/idl are created, the staged file
    is written, and the manifest is left alone. *)
Example scenario_scratch_directory_created :
  let env := World.host EmptyString None None SpawnFailed in
  let st :=
    World.disk
      (World.project_one
       ++ World.interface_manifest
            "{canisters:{main:{candid_path:/ws/canisters/main/main.did,canister_id:ic:ABCD}}}"
       ++ World.artifact) in
  let st' := (Extended.startServer env st).2 in
  fs st !! "/ws/.vscode" = None
  ∧ fs st' !! "/ws/.vscode" = Some Dir
  ∧ fs st' !! "/ws/.vscode/idl" = Some Dir
  ∧ fs st' !! "/ws/.vscode/idl/ABCD.did" = Some (File true "service : {}")
  ∧ fs st' !! "/ws/dfx.json" = fs st !! "/ws/dfx.json".
Proof. intros env st st'. repeat split; by vm_compute. Qed.

(** ** Restarting *)

Lemma apply_steps_client_is_Some (steps : list Step) (st : State) :
  is_Some (client st) → is_Some (client (apply_steps steps st)).
Proof.
  revert st. induction steps as [|s steps IH]; intros st Hst; [done |].
  unfold apply_steps in *. simpl. apply IH.
  destruct s as [e|q|dst text|spec]; simpl; try destruct (fs st !! q); done.
Qed.

Lemma extended_steps_never_stop (env : Env) (steps : list Step) :
  Forall (extended_step env) steps → ClientStop ∉ flat_map step_events steps.
Proof.
  induction 1 as [|s steps Hs _ IH]; simpl.
  - by intros ?%elem_of_nil.
  - intros [Hin | Hin]%elem_of_app; [| done].
    destruct s as [e| | |]; simpl in *; try by apply elem_of_nil in Hin.
    + apply list_elem_of_singleton in Hin. by destruct Hs.
    + done.
Qed.

(** X11.  [startServer] asks the current client to stop before anything
    else, and does so once: with [client] set, the first thing it logs is the
    stop and no second stop follows; with [client] unset it logs no stop at
    all.  It never unsets [client], so once a client has been started every
    later [startServer] begins with a stop, whether or not the last run
    started a client. *)
Theorem startServer_stops_first (env : Env) (st : State) :
  (is_Some (client st) →
   (∃ evs, log (Extended.startServer env st).2 = log st ++ ClientStop :: evs
           ∧ ClientStop ∉ evs)
   ∧ is_Some (client (Extended.startServer env st).2))
  ∧ (client st = None →
     ∃ evs, log (Extended.startServer env st).2 = log st ++ evs
            ∧ ClientStop ∉ evs).
Proof.
  assert (Hrest : ∀ st1, ∃ evs,
            log ((dfxConfig <- isDfxProject env ;;
                  match dfxConfig with
                  | Some dfxConfig => Extended.launchDfxProject env dfxConfig
                  | None => Extended.promptEntryPoint env
                  end) st1).2 = log st1 ++ evs
            ∧ ClientStop ∉ evs).
  { intros st1.
    destruct (Extended_resolution_runs env st1) as (steps & Hsteps & Hend).
    apply extended_steps_never_stop in Hsteps.
    destruct Hend as [-> | (spec & a & ->)]; cbn [snd].
    - exists (flat_map step_events steps). by rewrite apply_steps_log.
    - exists (flat_map step_events steps ++ [ClientStart spec]).
      split; [by rewrite apply_steps_log, flat_map_app |].
      intros [Hin | Hin%list_elem_of_singleton]%elem_of_app; done. }
  split.
  - intros Hclient. split.
    + unfold Extended.startServer, bind at 1, Extended.stopClient.
      destruct (client st) as [current|] eqn:Hcur; [| by destruct Hclient].
      simpl. destruct (Hrest (apply_step st (StepEmit ClientStop)))
        as (evs & Hlog & Hevs).
      exists evs. split; [| done].
      unfold apply_step in Hlog. rewrite Hlog. simpl. by rewrite <-app_assoc.
    + destruct (Extended_startServer_runs env st) as (steps & _ & Hend).
      destruct Hend as [-> | (spec & a & ->)]; cbn [snd].
      * by apply apply_steps_client_is_Some.
      * rewrite apply_steps_app. simpl. by eexists.
  - intros Hnone. unfold Extended.startServer, bind at 1, Extended.stopClient.
    rewrite Hnone. simpl. apply Hrest.
Qed.

Lemma startServer_stops_first_witness :
  let env := World.host EmptyString None None SpawnFailed in
  let st := (Extended.startServer env (World.disk World.project_one)).2 in
  is_Some (client st)
  ∧ (∃ evs, log (Extended.startServer env st).2 = log st ++ ClientStop :: evs
            ∧ ClientStop ∉ evs)
  ∧ is_Some (client (Extended.startServer env st).2).
Proof.
  intros env st.
  assert (Hclient : is_Some (client st)) by (vm_compute; by eexists).
  split; [exact Hclient |].
  exact (proj1 (startServer_stops_first env st) Hclient).
Defined.

(** ** Reading the manifests *)

(** X1.  [isDfxProject] never throws and never changes the state.  It
    returns a manifest exactly when there is a first workspace folder whose
    dfx.json is a readable file that [JSON.parse] maps to a value; a file
    holding the JSON text [null] counts as no project. *)
Theorem isDfxProject_result (env : Env) (st : State) :
  ∃ result,
    isDfxProject env st = (Ok result, st)
    ∧ ∀ dfxConfig,
        result = Some dfxConfig
        ↔ ∃ ws rest text,
            workspaceFolders env = Some (ws :: rest)
            ∧ fs st !! path_join env [ws; "dfx.json"] = Some (File true text)
            ∧ JSON_parse_DfxConfig env text = ParsedValue dfxConfig.
Proof.
  eexists. split; [apply isDfxProject_spec |].
  intros dfxConfig. unfold manifest_status.
  destruct (workspaceFolders env) as [[|ws rest]|];
    try (split; [done | by intros (? & ? & ? & ? & _)]).
  destruct (fs st !! path_join env [ws; "dfx.json"]) as [[|[] text]|] eqn:Hfile;
    try (split; [done | by intros (? & ? & ? & [= <- <-] & ? & _); simplify_eq]).
  destruct (JSON_parse_DfxConfig env text) eqn:Hparse.
  - split; [done |]. intros (? & ? & ? & [= <- <-] & ? & ?). simplify_eq; congruence.
  - split; [done |]. intros (? & ? & ? & [= <- <-] & ? & ?). simplify_eq; congruence.
  - split.
    + intros [= <-]. by exists ws, rest, text.
    + intros (? & ? & ? & [= <- <-] & ? & ?). simplify_eq; congruence.
Qed.

(** X2.  [getDfxManifest] likewise never throws and never changes the
    state, and returns the interface manifest exactly when
    <first workspace folder>/canisters/canister_manifest.json is a readable
    file that [JSON.parse] maps to a value. *)
Theorem getDfxManifest_result (env : Env) (st : State) :
  ∃ result,
    Extended.getDfxManifest env st = (Ok result, st)
    ∧ ∀ canisterManifest,
        result = Some canisterManifest
        ↔ ∃ ws rest text,
            workspaceFolders env = Some (ws :: rest)
            ∧ fs st !! path_join env [ws; "canisters"; "canister_manifest.json"]
              = Some (File true text)
            ∧ JSON_parse_DfxCanisterManifest env text
              = ParsedValue canisterManifest.
Proof.
  unfold Extended.getDfxManifest.
  destruct (workspaceFolders env) as [[|ws rest]|];
    try (exists None; split; [done |]; intros m;
         split; [done | by intros (? & ? & ? & ? & _)]).
  unfold try_catch, bind, first_folder, ret, readFileSync.
  destruct (fs st !! path_join env [ws; "canisters"; "canister_manifest.json"])
    as [[|[] text]|] eqn:Hfile;
    try (exists None; split; [done |]; intros m;
         split; [done | by intros (? & ? & ? & [= <- <-] & ? & _); simplify_eq]).
  destruct (JSON_parse_DfxCanisterManifest env text) as [| |found] eqn:Hparse.
  - exists None. split; [done |]. intros m. split; [done |].
    intros (? & ? & ? & [= <- <-] & ? & ?). simplify_eq; congruence.
  - exists None. split; [done |]. intros m. split; [done |].
    intros (? & ? & ? & [= <- <-] & ? & ?). simplify_eq; congruence.
  - exists (Some found). split; [done |]. intros m. split.
    + intros [= <-]. by exists ws, rest, text.
    + intros (? & ? & ? & [= <- <-] & ? & ?). simplify_eq; congruence.
Qed.

(** ** The scratch directory *)

(** X3.  [getOrCreateIDLPath] never throws, adds nothing to the log and
    leaves [client] alone.  In the file system a path keeps what it held,
    unless it is the scratch directory <first workspace folder>/.vscode/idl
    or one of its ancestors and has been created as a directory where
    nothing was; this also happens on the way to a failure, so a [null]
    result does not mean an untouched disk.  When a path is returned, it is
    the scratch directory and exists afterwards; if it did not exist before,
    all its ancestors are directories now; and asking again gives the same
    answer and changes nothing. *)
Theorem getOrCreateIDLPath_result (env : Env) (st : State) :
  ∃ result st',
    Extended.getOrCreateIDLPath env st = (Ok result, st')
    ∧ log st' = log st
    ∧ client st' = client st
    ∧ (∀ p, fs st' !! p = fs st !! p
            ∨ (∃ dir,
                 scratch_dir env = Some dir
                 ∧ p ∈ path_ancestors env dir ++ [dir]
                 ∧ fs st !! p = None
                 ∧ fs st' !! p = Some Dir))
    ∧ (∀ dir, result = Some dir →
         scratch_dir env = Some dir
         ∧ is_Some (fs st' !! dir)
         ∧ (fs st !! dir = None →
            ∀ q, q ∈ path_ancestors env dir → fs st' !! q = Some Dir)
         ∧ Extended.getOrCreateIDLPath env st' = (Ok (Some dir), st')).
Proof.
  destruct (getOrCreateIDLPath_changes env st)
    as (result & st' & Hrun & Hlog & Hclient & Hframe & Hresult).
  exists result, st'. split; [done |]. split; [done |]. split; [done |].
  split; [done |]. intros dir Hdir.
  destruct (Hresult dir Hdir) as (Hscratch & Hthere & Habove).
  split; [done |]. split; [done |]. split; [done |].
  rewrite getOrCreateIDLPath_equation, Hscratch.
  by rewrite bool_decide_eq_true_2.
Qed.

(** A workspace without a .vscode directory in which nothing may be created
    at .vscode/idl: the directory .vscode is created all the same, and the
    result is [null]. *)
Example scenario_scratch_directory_half_created :
  let env :=
    {| config := World.settings EmptyString;
       workspaceFolders := Some ["/ws"];
       activeDocument := None;
       inputBoxAnswer := λ _ value, value;
       quickPickAnswer := λ _, None;
       path_join := World.join;
       path_ancestors := World.ancestors;
       JSON_parse_DfxConfig := World.parse_config;
       JSON_parse_DfxCanisterManifest := World.parse_manifest;
       which_sync := λ _, None;
       run_process := λ _ _, SpawnFailed;
       writable := λ p, bool_decide (p ≠ "/ws/.vscode/idl") |} in
  let st := World.disk [("/", Dir); ("/ws", Dir)] in
  (Extended.getOrCreateIDLPath env st).1 = Ok None
  ∧ fs st !! "/ws/.vscode" = None
  ∧ fs (Extended.getOrCreateIDLPath env st).2 !! "/ws/.vscode" = Some Dir
  ∧ fs (Extended.getOrCreateIDLPath env st).2 !! "/ws/.vscode/idl" = None.
Proof. intros env st. repeat split; by vm_compute. Qed.

(** ** Package sources *)

(** X15.  [vesselArgs] never throws, whatever the workspace, the file
    system and the listing command do, and it leaves the file system and
    [client] alone; all it may add to the log is the exception it caught. *)
Theorem vesselArgs_never_throws (env : Env) (st : State) :
  ∃ tokens st' evs,
    Extended.vesselArgs env st = (Ok tokens, st')
    ∧ fs st' = fs st
    ∧ client st' = client st
    ∧ log st' = log st ++ evs
    ∧ Forall (λ e, ∃ err, e = ConsoleLogError err) evs.
Proof.
  unfold Extended.vesselArgs, try_catch, bind, first_folder, existsSync,
    execSync, emit, throw, ret.
  assert (Hcaught : ∀ err,
            ∃ tokens st' evs,
              (@Ok (list string) [],
               {| fs := fs st; client := client st;
                  log := log st ++ [ConsoleLogError err] |}) = (Ok tokens, st')
              ∧ fs st' = fs st
              ∧ client st' = client st
              ∧ log st' = log st ++ evs
              ∧ Forall (λ e, ∃ err, e = ConsoleLogError err) evs).
  { intros err. eexists _, _, [_]. split; [done |].
    split; [done |]. split; [done |]. split; [done |].
    apply Forall_singleton. by eexists. }
  destruct (workspaceFolders env) as [[|ws rest]|]; simpl;
    [apply Hcaught | | apply Hcaught].
  destruct (negb _).
  { exists [], st, []. rewrite app_nil_r. by repeat split. }
  destruct (run_process env "vessel sources" ws) as [|[|status] stdout];
    [apply Hcaught | | apply Hcaught].
  eexists _, st, []. rewrite app_nil_r. by repeat split.
Qed.

Lemma vesselArgs_listing (env : Env) (st : State) (ws stdout : string)
    (rest : list string) :
  workspaceFolders env = Some (ws :: rest) →
  is_Some (fs st !! path_join env [ws; "vessel.json"]) →
  run_process env "vessel sources" ws = Exited 0 stdout →
  Extended.vesselArgs env st = (Ok (split space stdout), st).
Proof.
  intros Hwsf Hfile Hrun.
  unfold Extended.vesselArgs, try_catch, bind, first_folder, existsSync,
    execSync, ret.
  rewrite Hwsf. simpl. rewrite bool_decide_eq_true_2 by done. simpl.
  by rewrite Hrun.
Qed.

(** X16.  When vessel.json exists and the listing command exits with
    status 0, [vesselArgs] returns its output cut at every space, silently
    and without touching the state.  The output is not trimmed: joining the
    tokens with spaces gives back every character the command printed, a
    final line break included. *)
Theorem vesselArgs_tokens (env : Env) (st : State) (ws stdout : string)
    (rest : list string) :
  workspaceFolders env = Some (ws :: rest) →
  is_Some (fs st !! path_join env [ws; "vessel.json"]) →
  run_process env "vessel sources" ws = Exited 0 stdout →
  Extended.vesselArgs env st = (Ok (split space stdout), st)
  ∧ join_pieces space (split space stdout) = stdout.
Proof.
  intros Hwsf Hfile Hrun. split; [| apply join_split].
  unfold Extended.vesselArgs, try_catch, bind, first_folder, existsSync,
    execSync, ret.
  rewrite Hwsf. simpl. rewrite bool_decide_eq_true_2 by done. simpl.
  by rewrite Hrun.
Qed.

Lemma vesselArgs_tokens_witness :
  let env :=
    World.host EmptyString None None (Exited 0 "--package base /cache/base") in
  let st := World.disk [("/ws/vessel.json", File true "{}")] in
  is_Some (fs st !! path_join env ["/ws"; "vessel.json"])
  ∧ Extended.vesselArgs env st
    = (Ok (split space "--package base /cache/base"), st)
  ∧ join_pieces space (split space "--package base /cache/base")
    = "--package base /cache/base".
Proof.
  intros env st.
  assert (Hfile : is_Some (fs st !! path_join env ["/ws"; "vessel.json"]))
    by (vm_compute; by eexists).
  split; [exact Hfile |].
  exact (vesselArgs_tokens env st "/ws" "--package base /cache/base" []
           eq_refl Hfile eq_refl).
Defined.

(** ** Looking dfx up *)

Lemma Lean_start_found (env : Env) (st : State) (found target : string) :
  which_sync env (dfx (config env)) = Some found →
  Lean.start env target st
  = launchClient {| command := found;
                    args := ["_language-service"; target] |} st.
Proof.
  intros Hwhich. unfold Lean.start, bind.
  by rewrite (Lean_getDfx_found env st found Hwhich).
Qed.

(** X17.  When the search-path lookup finds dfx, what it found is the
    executable, whether or not anything exists at the configured path:
    [getDfx] returns it without a notification and without changing the
    state, and the launch closure starts the client on it. *)
Theorem dfx_lookup_success (env : Env) (st : State) (found : string) :
  which_sync env (dfx (config env)) = Some found →
  Lean.getDfx env st = (Ok found, st)
  ∧ ∀ target,
      Lean.start env target st
      = launchClient {| command := found;
                        args := ["_language-service"; target] |} st.
Proof.
  intros Hwhich.
  assert (Hget : Lean.getDfx env st = (Ok found, st)).
  { unfold Lean.getDfx, try_catch. by rewrite Hwhich. }
  split; [done |]. intros target. unfold Lean.start, bind. by rewrite Hget.
Qed.

Lemma dfx_lookup_success_witness :
  let env := World.host EmptyString None (Some "/usr/bin/dfx") SpawnFailed in
  let st := World.disk [("dfx", File true "#!/bin/sh")] in
  which_sync env (dfx (config env)) = Some "/usr/bin/dfx"
  ∧ Lean.getDfx env st = (Ok "/usr/bin/dfx", st)
  ∧ ∀ target,
      Lean.start env target st
      = launchClient {| command := "/usr/bin/dfx";
                        args := ["_language-service"; target] |} st.
Proof.
  intros env st.
  split; [reflexivity |].
  exact (dfx_lookup_success env st "/usr/bin/dfx" eq_refl).
Defined.

(** ** Strings *)

Lemma split_pieces_count (sep : ascii) (s : string) :
  length (split sep s) = S (count_char sep s).
Proof.
  induction s as [|c s IH]; simpl; [done |].
  case_decide; simpl; [by rewrite IH |].
  destruct (split sep s) as [|t ts]; simpl in *; [done | by rewrite IH].
Qed.

(** X18.  [split] returns one piece more than there are separators in the
    text, hence at least one piece: the empty text gives one empty piece,
    and an empty extra-arguments setting one empty argument. *)
Theorem split_length (sep : ascii) (s : string) :
  length (split sep s) = S (count_char sep s).
Proof.
  induction s as [|c s IH]; simpl; [done |].
  case_decide; simpl; [by rewrite IH |].
  destruct (split sep s) as [|t ts]; simpl in *; [done | by rewrite IH].
Qed.

Lemma split_free (sep : ascii) (piece : string) :
  has_char sep piece = false → split sep piece = [piece].
Proof.
  induction piece as [|c piece IH]; simpl; [done |].
  intros [Hc Hfree]%orb_false_elim. apply bool_decide_eq_false in Hc.
  rewrite decide_False by done. by rewrite IH.
Qed.

Lemma split_append (sep : ascii) (piece rest : string) :
  has_char sep piece = false →
  split sep (piece +:+ String sep rest) = piece :: split sep rest.
Proof.
  induction piece as [|c piece IH]; simpl.
  - intros _. by rewrite decide_True.
  - intros [Hc Hfree]%orb_false_elim. apply bool_decide_eq_false in Hc.
    rewrite decide_False by done. by rewrite IH.
Qed.

(** X19.  Splitting undoes joining: a non-empty list of pieces none of which
    contains the separator is what [split] returns on the pieces joined by
    the separator. *)
Theorem split_join (sep : ascii) (pieces : list string) :
  pieces ≠ [] →
  Forall (λ piece, has_char sep piece = false) pieces →
  split sep (join_pieces sep pieces) = pieces.
Proof.
  intros Hne Hfree. induction Hfree as [|piece rest Hpiece Hrest IH]; [done |].
  destruct rest as [|next rest].
  - simpl. by apply split_free.
  - change (join_pieces sep (piece :: next :: rest))
      with (piece +:+ String sep (join_pieces sep (next :: rest))).
    rewrite split_append by done. by rewrite IH.
Qed.

Lemma split_join_witness :
  ["--package"; "base"; "/cache/base"] ≠ []
  ∧ split space (join_pieces space ["--package"; "base"; "/cache/base"])
    = ["--package"; "base"; "/cache/base"].
Proof.
  assert (Hne : ["--package"; "base"; "/cache/base"] ≠ ([] : list string))
    by discriminate.
  split; [exact Hne |].
  apply (split_join space ["--package"; "base"; "/cache/base"] Hne).
  repeat constructor.
Defined.

(** X20.  [slice] drops exactly a prefix: cutting as many characters as a
    prefix has from the prefix followed by a text leaves the text, so
    [slice(3)] turns "ic:" followed by a name into the name.  A text of at
    most [n] characters is cut to the empty text, so every identifier of up
    to three characters is staged under the one name ".did". *)
Theorem slice_prefix (n : nat) (prefix s : string) :
  slice (String.length prefix) (prefix +:+ s) = s
  ∧ String.length (slice n s) = String.length s - n
  ∧ (String.length s ≤ n → slice n s = EmptyString).
Proof.
  split; [| split].
  - induction prefix as [|c prefix IH]; simpl; [by destruct s | done].
  - apply slice_length.
  - intros Hshort. pose proof (slice_length n s) as Hlen.
    destruct (slice n s); [done |]. simpl in Hlen. lia.
Qed.

Lemma slice_prefix_witness :
  slice (String.length "ic:") ("ic:" +:+ "ryjl3-tyaaa") = "ryjl3-tyaaa"
  ∧ String.length "ic" ≤ 3
  ∧ slice 3 "ic" = EmptyString.
Proof.
  destruct (slice_prefix 3 "ic:" "ryjl3-tyaaa") as (Hstrip & _ & _).
  destruct (slice_prefix 3 "ic:" "ic") as (_ & _ & Hshort).
  assert (Hlen : String.length "ic" ≤ 3) by (simpl; lia).
  split; [exact Hstrip |]. split; [exact Hlen |]. exact (Hshort Hlen).
Defined.

(** ** The manifest-absent path *)

Lemma isDfxProject_absent (env : Env) (st st0 : State) :
  (∀ dfxConfig, manifest_status env st ≠ Manifest dfxConfig) →
  fs st0 = fs st →
  isDfxProject env st0 = (Ok None, st0).
Proof.
  intros Habsent Hfs.
  rewrite isDfxProject_spec, (manifest_status_fs env st st0 Hfs).
  destruct (manifest_status env st) eqn:Hstatus; try done.
  by exfalso; eapply Habsent.
Qed.

Lemma stopClient_fs (st : State) : fs (Extended.stopClient st).2 = fs st.
Proof. unfold Extended.stopClient. by destruct (client st). Qed.

Lemma startServer_absent (env : Env) (st : State) :
  (∀ dfxConfig, manifest_status env st ≠ Manifest dfxConfig) →
  Extended.startServer env st
  = Extended.promptEntryPoint env (Extended.stopClient st).2.
Proof.
  intros Habsent. unfold Extended.startServer, bind.
  pose proof (stopClient_ok st) as Hok. pose proof (stopClient_fs st) as Hfs.
  destruct (Extended.stopClient st) as [r st0]. simpl in *. subst r.
  by rewrite (isDfxProject_absent env st st0).
Qed.

(** X12.  Without a manifest, an entry-point prompt that is dismissed or
    answered with the empty text ends the run: both variants return
    normally having logged the prompt (the extended one after stopping the
    current client) and nothing else; no client is started, [client] and the
    file system stay as they were. *)
Theorem entry_point_not_given (env : Env) (st : State) :
  (∀ dfxConfig, manifest_status env st ≠ Manifest dfxConfig) →
  truthy (inputBoxAnswer env entry_prompt (activeDocument env)) = false →
  Lean.activate env st
  = (Ok tt,
     apply_step st (StepEmit (ShowInputBox entry_prompt (activeDocument env))))
  ∧ Extended.startServer env st
    = (Ok tt,
       apply_step (Extended.stopClient st).2
         (StepEmit (ShowInputBox entry_prompt (activeDocument env)))).
Proof.
  intros Habsent Hnone. split.
  - unfold Lean.activate, bind at 1.
    rewrite (isDfxProject_absent env st st) by done.
    unfold Lean.promptEntryPoint, bind, showInputBox, emit, ret, then_,
      try_catch. simpl.
    destruct (inputBoxAnswer env _ _) as [file|]; [| done].
    by rewrite Hnone.
  - rewrite startServer_absent by done.
    unfold Extended.promptEntryPoint, bind, showInputBox, emit, ret, then_,
      try_catch. simpl.
    destruct (inputBoxAnswer env _ _) as [file|]; [| done].
    by rewrite Hnone.
Qed.

Lemma entry_point_not_given_witness :
  let env :=
    {| config := World.settings EmptyString;
       workspaceFolders := Some ["/ws"];
       activeDocument := None;
       inputBoxAnswer := λ _ _, Some EmptyString;
       quickPickAnswer := λ _, None;
       path_join := World.join;
       path_ancestors := World.ancestors;
       JSON_parse_DfxConfig := World.parse_config;
       JSON_parse_DfxCanisterManifest := World.parse_manifest;
       which_sync := λ _, None;
       run_process := λ _ _, SpawnFailed;
       writable := λ _, true |} in
  let st := World.disk [] in
  truthy (inputBoxAnswer env entry_prompt (activeDocument env)) = false
  ∧ Lean.activate env st
    = (Ok tt, apply_step st (StepEmit (ShowInputBox entry_prompt None)))
  ∧ Extended.startServer env st
    = (Ok tt,
       apply_step (Extended.stopClient st).2
         (StepEmit (ShowInputBox entry_prompt None))).
Proof.
  intros env st.
  assert (Habsent : ∀ dfxConfig, manifest_status env st ≠ Manifest dfxConfig).
  { intros dfxConfig. vm_compute. discriminate. }
  split; [reflexivity |].
  exact (entry_point_not_given env st Habsent eq_refl).
Defined.

(** X14.  Without a manifest and with an entry point given, the lean
    variant logs the prompt and starts the client on the standalone binary
    with the mode flag, the entry point and the pieces of the extra-arguments
    setting, and does nothing else.  The client gets three arguments plus one
    per space in the setting: an empty setting still passes one empty
    argument. *)
Theorem Lean_standalone_launch (env : Env) (st : State) (file : string) :
  (∀ dfxConfig, manifest_status env st ≠ Manifest dfxConfig) →
  inputBoxAnswer env entry_prompt (activeDocument env) = Some file →
  file ≠ EmptyString →
  Lean.activate env st
  = (Ok tt,
     apply_steps
       [StepEmit (ShowInputBox entry_prompt (activeDocument env));
        StepLaunch
          {| command := standaloneBinary (config env);
             args := ["--canister-main"; file]
                       ++ split space (standaloneArguments (config env)) |}]
       st)
  ∧ length (["--canister-main"; file]
              ++ split space (standaloneArguments (config env)))
    = 3 + count_char space (standaloneArguments (config env)).
Proof.
  intros Habsent Hanswer Hfile. split.
  - unfold Lean.activate, bind at 1.
    rewrite (isDfxProject_absent env st st) by done.
    unfold Lean.promptEntryPoint, bind, showInputBox, emit, ret, then_,
      try_catch. simpl.
    rewrite Hanswer. by destruct file.
  - simpl. by rewrite split_pieces_count.
Qed.

Lemma Lean_standalone_launch_witness :
  let env := World.host EmptyString None None SpawnFailed in
  let st := World.disk [] in
  inputBoxAnswer env entry_prompt (activeDocument env) = Some "/tmp/foo.mo"
  ∧ Lean.activate env st
    = (Ok tt,
       apply_steps
         [StepEmit (ShowInputBox entry_prompt (Some "/tmp/foo.mo"));
          StepLaunch
            {| command := "mo-ide";
               args := ["--canister-main"; "/tmp/foo.mo"]
                         ++ split space "--a --b" |}]
         st)
  ∧ length (["--canister-main"; "/tmp/foo.mo"] ++ split space "--a --b")
    = 3 + count_char space "--a --b".
Proof.
  intros env st.
  assert (Habsent : ∀ dfxConfig, manifest_status env st ≠ Manifest dfxConfig).
  { intros dfxConfig. vm_compute. discriminate. }
  assert (Hfile : "/tmp/foo.mo" ≠ EmptyString) by discriminate.
  split; [reflexivity |].
  exact (Lean_standalone_launch env st "/tmp/foo.mo" Habsent eq_refl Hfile).
Defined.

(** X13.  Without a manifest, with an entry point given and a working
    package listing, the extended variant stops the current client, logs the
    prompt and starts the client on the standalone binary with, in this
    order, the mode flag, the entry point, the tokens of the listing and the
    pieces of the extra-arguments setting; it does nothing else. *)
Theorem Extended_standalone_launch_with_packages (env : Env) (st : State)
    (file ws stdout : string) (rest : list string) :
  (∀ dfxConfig, manifest_status env st ≠ Manifest dfxConfig) →
  inputBoxAnswer env entry_prompt (activeDocument env) = Some file →
  file ≠ EmptyString →
  workspaceFolders env = Some (ws :: rest) →
  is_Some (fs st !! path_join env [ws; "vessel.json"]) →
  run_process env "vessel sources" ws = Exited 0 stdout →
  Extended.startServer env st
  = (Ok tt,
     apply_steps
       [StepEmit (ShowInputBox entry_prompt (activeDocument env));
        StepLaunch
          {| command := standaloneBinary (config env);
             args := (["--canister-main"; file] ++ split space stdout)
                       ++ split space (standaloneArguments (config env)) |}]
       (Extended.stopClient st).2).
Proof.
  intros Habsent Hanswer Hfile Hwsf Hvessel Hrun.
  rewrite startServer_absent by done.
  pose proof (stopClient_fs st) as Hfs.
  destruct (Extended.stopClient st) as [r st0]. simpl in *.
  unfold Extended.promptEntryPoint, bind at 1, showInputBox, bind at 1, emit,
    ret, then_, try_catch. simpl.
  rewrite Hanswer. destruct file as [|c file]; [done |]. simpl.
  unfold bind.
  set (st1 := {| fs := fs st0; client := client st0;
                 log := log st0
                        ++ [ShowInputBox entry_prompt (activeDocument env)] |}).
  assert (Hvessel1 : is_Some (fs st1 !! path_join env [ws; "vessel.json"]))
    by (simpl; by rewrite Hfs).
  by rewrite (vesselArgs_listing env st1 ws stdout rest Hwsf Hvessel1 Hrun).
Qed.

Lemma Extended_standalone_launch_with_packages_witness :
  let env :=
    World.host EmptyString None None (Exited 0 "--package base /cache/base") in
  let st := World.disk [("/ws/vessel.json", File true "{}")] in
  inputBoxAnswer env entry_prompt (activeDocument env) = Some "/tmp/foo.mo"
  ∧ is_Some (fs st !! path_join env ["/ws"; "vessel.json"])
  ∧ Extended.startServer env st
    = (Ok tt,
       apply_steps
         [StepEmit (ShowInputBox entry_prompt (Some "/tmp/foo.mo"));
          StepLaunch
            {| command := "mo-ide";
               args := (["--canister-main"; "/tmp/foo.mo"]
                          ++ split space "--package base /cache/base")
                         ++ split space "--a --b" |}]
         (Extended.stopClient st).2).
Proof.
  intros env st.
  assert (Habsent : ∀ dfxConfig, manifest_status env st ≠ Manifest dfxConfig).
  { intros dfxConfig. vm_compute. discriminate. }
  assert (Hfile : "/tmp/foo.mo" ≠ EmptyString) by discriminate.
  assert (Hvessel : is_Some (fs st !! path_join env ["/ws"; "vessel.json"]))
    by (vm_compute; by eexists).
  split; [reflexivity |]. split; [exact Hvessel |].
  exact (Extended_standalone_launch_with_packages env st "/tmp/foo.mo" "/ws"
           "--package base /cache/base" [] Habsent eq_refl Hfile eq_refl
           Hvessel eq_refl).
Defined.

(** ** Target selection at the edges *)

(** X22.  The lean variant never looks the configured target up in the
    manifest: with a non-empty configured name and dfx found on the search
    path, [launchDfxProject] starts the client on that name whatever the
    manifest contains, also when it names no target at all. *)
Theorem Lean_configured_name_unchecked (env : Env) (dfxConfig : DfxConfig)
    (st : State) (found : string) :
  canister (config env) ≠ EmptyString →
  which_sync env (dfx (config env)) = Some found →
  Lean.launchDfxProject env dfxConfig st
  = launchClient {| command := found;
                    args := ["_language-service"; canister (config env)] |} st.
Proof.
  intros Hset Hwhich. unfold Lean.launchDfxProject.
  rewrite bool_decide_eq_false_2 by done. simpl.
  by apply Lean_start_found.
Qed.

Lemma Lean_configured_name_unchecked_witness :
  let env := World.host "nope" None (Some "/usr/bin/dfx") SpawnFailed in
  let st := World.disk World.project_one in
  canister (config env) ≠ EmptyString
  ∧ (canister (config env) ∉ Object_keys (canisters World.one_target))
  ∧ Lean.launchDfxProject env World.one_target st
    = launchClient {| command := "/usr/bin/dfx";
                      args := ["_language-service"; "nope"] |} st.
Proof.
  intros env st.
  assert (H1 : canister (config env) ≠ EmptyString) by done.
  split; [exact H1 |]. split.
  { simpl. intros [? | []%elem_of_nil]%elem_of_cons. done. }
  exact (Lean_configured_name_unchecked env World.one_target st "/usr/bin/dfx"
           H1 eq_refl).
Defined.

Lemma staging_step_no_launch (env : Env) (s : Step) :
  staging_step env s → no_launch s.
Proof. destruct s as [[]| | |]; simpl; done. Qed.

(** X21.  A manifest without any target and no configured default: the
    extended variant shows a pick list with no items, returns normally and
    logs no second prompt.  A dismissed list ends the run.  An answer is
    passed to the launch closure unchecked, and as long as it is not a name
    every object inherits from [Object.prototype] (the list offers no name
    at all), no client is started and [client] stays as it was: the closure's
    exception (of the staging, or the [TypeError] of the missing descriptor)
    is swallowed by the promise. *)
Theorem empty_manifest_never_launches (env : Env) (dfxConfig : DfxConfig)
    (st : State) :
  canister (config env) = EmptyString →
  canisters dfxConfig = [] →
  ∃ st' evs,
    Extended.launchDfxProject env dfxConfig st = (Ok tt, st')
    ∧ log st' = log st ++ ShowQuickPick [] :: evs
    ∧ Forall (λ e, is_prompt e = false) evs
    ∧ ((∀ picked, quickPickAnswer env [] = Some picked →
                  inherited picked = false) →
       Forall (λ e, is_launch e = false) evs ∧ client st' = client st).
Proof.
  intros Hdefault Hempty. unfold Extended.launchDfxProject.
  rewrite Hdefault, Hempty. simpl.
  unfold bind at 1, showQuickPick, bind at 1, emit, ret, then_, try_catch. simpl.
  set (st1 := {| fs := fs st; client := client st;
                 log := log st ++ [ShowQuickPick []] |}).
  destruct (quickPickAnswer env []) as [picked|] eqn:Hanswer;
    [| by exists st1, []].
  destruct (truthy (Some picked)); [| by exists st1, []].
  unfold Extended.start, bind at 1.
  destruct (Extended_copyIDLFiles_performs env st1)
    as (steps & Hsteps & Hst2 & _).
  assert (Hcons : Forall (λ e, is_launch e = false ∧ is_prompt e = false)
                    (flat_map step_events steps)).
  { clear Hst2. induction Hsteps as [|s steps Hs _ IH]; simpl; [done |].
    apply Forall_app. split; [| done].
    destruct s as [[]| | |]; simpl in *; try done; by apply Forall_singleton. }
  assert (Hsilent : Forall (λ e, is_prompt e = false)
                      (flat_map step_events steps)).
  { eapply Forall_impl; [exact Hcons |]. by intros e [_ ?]. }
  assert (Hstarts : Forall (λ e, is_launch e = false)
                      (flat_map step_events steps)).
  { eapply Forall_impl; [exact Hcons |]. by intros e [? _]. }
  assert (Hquiet : Forall no_launch steps).
  { eapply Forall_impl; [exact Hsteps | apply staging_step_no_launch]. }
  destruct (Extended.copyIDLFiles env st1) as [[idlFiles|e] st2];
    simpl in Hst2; subst st2.
  - unfold member. rewrite Hempty. simpl.
    destruct (inherited picked) eqn:Hinherited; simpl.
    + eexists. eexists (flat_map step_events steps ++ [ClientStart _]).
      split; [done |]. simpl. rewrite apply_steps_log.
      split; [subst st1; simpl; by rewrite <-!app_assoc |].
      split; [apply Forall_app; split; [done | by apply Forall_singleton] |].
      intros Hlisted. by rewrite (Hlisted picked) in Hinherited.
    + eexists.
      exists (flat_map step_events steps ++ [UnhandledRejection TypeError]).
      split; [done |]. simpl.
      rewrite apply_steps_log, apply_steps_client by done.
      split; [subst st1; simpl; by rewrite <-!app_assoc |].
      split; [apply Forall_app; split; [done | by apply Forall_singleton] |].
      intros _. split; [| done].
      apply Forall_app. split; [done | by apply Forall_singleton].
  - eexists. exists (flat_map step_events steps ++ [UnhandledRejection e]).
    split; [done |]. simpl. rewrite apply_steps_log, apply_steps_client by done.
    split; [subst st1; simpl; by rewrite <-!app_assoc |].
    split; [apply Forall_app; split; [done | by apply Forall_singleton] |].
    intros _. split; [| done].
    apply Forall_app. split; [done | by apply Forall_singleton].
Qed.

Lemma empty_manifest_never_launches_witness :
  let env := World.host EmptyString (Some "main") None SpawnFailed in
  let st := World.disk [] in
  canister (config env) = EmptyString
  ∧ (∀ picked, quickPickAnswer env [] = Some picked → inherited picked = false)
  ∧ ∃ st' evs,
      Extended.launchDfxProject env {| canisters := [] |} st = (Ok tt, st')
      ∧ log st' = log st ++ ShowQuickPick [] :: evs
      ∧ Forall (λ e, is_prompt e = false) evs
      ∧ Forall (λ e, is_launch e = false) evs
      ∧ client st' = client st.
Proof.
  intros env st.
  assert (Hlisted : ∀ picked, quickPickAnswer env [] = Some picked →
                      inherited picked = false).
  { by intros picked [= <-]. }
  split; [reflexivity |]. split; [exact Hlisted |].
  destruct (empty_manifest_never_launches env {| canisters := [] |} st
              eq_refl eq_refl) as (st' & evs & Hrun & Hlog & Hsilent & Hnone).
  exists st', evs. split; [exact Hrun |]. split; [exact Hlog |].
  split; [exact Hsilent |]. exact (Hnone Hlisted).
Defined.

(** ** Staging, file by file *)

Lemma copyFileSync_throw (env : Env) (src dst : string) (e : JsError)
    (st st' : State) :
  copyFileSync env src dst st = (Throw e, st') → st' = st.
Proof.
  unfold copyFileSync. intros Hcopy.
  destruct (fs st !! src) as [[|[] text]|]; try by inversion Hcopy.
  destruct (fs st !! dst) as [[|]|]; try by inversion Hcopy.
  all: destruct (writable env dst); by inversion Hcopy.
Qed.

(** One turn of the staging loop. *)
Lemma copy_entries_cons (env : Env) (idlPath alias : string)
    (info : DfxManifestCanister)
    (rest : list (string * DfxManifestCanister))
    (acc : list Extended.CanisterMapping) (st : State) :
  Extended.copy_entries env idlPath ((alias, info) :: rest) acc st =
    match copyFileSync env (candid_path info)
            (staged_path env idlPath (alias, info))
            (apply_step st
               (StepEmit (ConsoleLog [canister_id info;
                                      slice 3 (canister_id info)]))) with
    | (Ok _, st1) =>
        Extended.copy_entries env idlPath rest
          (acc ++ [{| Extended.alias := alias;
                      Extended.id := canister_id info |}]) st1
    | (Throw e, st1) => (Throw e, st1)
    end.
Proof. reflexivity. Qed.

(** The staging loop writes to the staged paths of its entries and nowhere
    else, also when it ends in an exception. *)
Lemma copy_entries_frame (env : Env) (idlPath : string)
    (entries : list (string * DfxManifestCanister))
    (acc : list Extended.CanisterMapping) (st : State) (p : string) :
  p ∉ map (staged_path env idlPath) entries →
  fs (Extended.copy_entries env idlPath entries acc st).2 !! p = fs st !! p.
Proof.
  revert acc st. induction entries as [|[alias info] rest IH];
    intros acc st Hp; [done |].
  rewrite map_cons in Hp. apply not_elem_of_cons in Hp as [Hne Hp].
  rewrite copy_entries_cons.
  destruct (copyFileSync env _ _ _) as [[[]|e] st1] eqn:Hcopy.
  - apply copyFileSync_ok in Hcopy as (text & _ & ->).
    rewrite IH by done. cbn [fs set_fs apply_step].
    by rewrite lookup_insert_ne.
  - by apply copyFileSync_throw in Hcopy as ->.
Qed.

(** X6.  Staging copies contents faithfully.  When the staged paths of the
    entries are pairwise distinct and no artifact is itself a staged path,
    then after a successful run of the staging loop every entry's staged
    file holds the text its artifact held before the run. *)
Theorem staging_copies_contents (env : Env) (idlPath : string)
    (entries : list (string * DfxManifestCanister))
    (acc mappings : list Extended.CanisterMapping) (st st' : State) :
  NoDup (map (staged_path env idlPath) entries) →
  (∀ entry, entry ∈ entries →
     candid_path entry.2 ∉ map (staged_path env idlPath) entries) →
  Extended.copy_entries env idlPath entries acc st = (Ok mappings, st') →
  ∀ entry, entry ∈ entries →
    ∃ text,
      fs st !! candid_path entry.2 = Some (File true text)
      ∧ fs st' !! staged_path env idlPath entry = Some (File true text).
Proof.
  revert acc st. induction entries as [|[alias info] rest IH];
    intros acc st Hdistinct Hsources Hrun entry Hentry.
  { by apply elem_of_nil in Hentry. }
  rewrite map_cons in Hdistinct, Hsources.
  apply NoDup_cons in Hdistinct as [Hfresh Hdistinct].
  rewrite copy_entries_cons in Hrun.
  destruct (copyFileSync env _ _ _) as [[[]|e] st1] eqn:Hcopy; [| done].
  apply copyFileSync_ok in Hcopy as (text & Hsource & ->).
  cbn [fs apply_step] in Hsource.
  apply elem_of_cons in Hentry as [-> | Hentry].
  - exists text. split; [done |].
    match type of Hrun with
    | Extended.copy_entries _ _ _ ?acc1 ?st1 = _ =>
        pose proof (copy_entries_frame env idlPath rest acc1 st1 _ Hfresh)
          as Hframe
    end.
    rewrite Hrun in Hframe. cbn [snd] in Hframe. rewrite Hframe.
    cbn [fs set_fs apply_step]. apply lookup_insert_eq.
  - assert (Hne : staged_path env idlPath (alias, info) ≠ candid_path entry.2).
    { intros Heq. apply (Hsources entry); [by right |]. rewrite <-Heq. by left. }
    eapply IH in Hrun as (text' & Hsource' & Hstaged'); [| done | | done].
    + exists text'. split; [| done].
      cbn [fs set_fs apply_step] in Hsource'.
      by rewrite lookup_insert_ne in Hsource'.
    + intros entry' Hentry' Hin. apply (Hsources entry'); by right.
Qed.

Lemma staging_copies_contents_witness :
  let env := World.host EmptyString None None SpawnFailed in
  let st := World.disk World.artifact in
  let entries := manifest_canisters (World.one_interface "ic:ABCD") in
  let st' := (Extended.copy_entries env "/ws/.vscode/idl" entries [] st).2 in
  NoDup (map (staged_path env "/ws/.vscode/idl") entries)
  ∧ (∀ entry, entry ∈ entries →
       ∃ text,
         fs st !! candid_path entry.2 = Some (File true text)
         ∧ fs st' !! staged_path env "/ws/.vscode/idl" entry
           = Some (File true text)).
Proof.
  intros env st entries st'.
  assert (Hdistinct : NoDup (map (staged_path env "/ws/.vscode/idl") entries)).
  { apply NoDup_cons. split; [by intros ?%elem_of_nil | apply NoDup_nil_2]. }
  assert (Hsources : ∀ entry, entry ∈ entries →
            candid_path entry.2 ∉ map (staged_path env "/ws/.vscode/idl") entries).
  { intros entry ->%list_elem_of_singleton.
    intros [Heq | []%elem_of_nil]%elem_of_cons. discriminate Heq. }
  split; [exact Hdistinct |].
  refine (staging_copies_contents env "/ws/.vscode/idl" entries []
            [{| Extended.alias := "main"; Extended.id := "ic:ABCD" |}]
            st st' Hdistinct Hsources _).
  vm_compute. reflexivity.
Defined.





(** ** The picked target *)

(** X23.  What the target prompt's answer leads to.  With no configured
    default, a number of targets other than one and a non-empty answer, the
    answer is handed to the launch closure as it is.  In the lean variant,
    with dfx found on the search path, the run logs the prompt and starts
    the client on the answer, and that is all.  In the extended variant the
    closure runs after the prompt: if it returns, its state is the state of
    the run; if it throws, the run still returns normally and the exception
    is left on the log as an unhandled rejection. *)
Theorem picked_target_is_launched (env : Env) (dfxConfig : DfxConfig)
    (st : State) (picked : string) :
  canister (config env) = EmptyString →
  length (Object_keys (canisters dfxConfig)) ≠ 1 →
  quickPickAnswer env (Object_keys (canisters dfxConfig)) = Some picked →
  picked ≠ EmptyString →
  (∀ found,
     which_sync env (dfx (config env)) = Some found →
     Lean.launchDfxProject env dfxConfig st
     = (Ok tt,
        apply_steps
          [StepEmit (ShowQuickPick (Object_keys (canisters dfxConfig)));
           StepLaunch {| command := found;
                         args := ["_language-service"; picked] |}]
          st))
  ∧ (∀ st2,
       Extended.start env dfxConfig picked
         (apply_step st
            (StepEmit (ShowQuickPick (Object_keys (canisters dfxConfig)))))
       = (Ok tt, st2) →
       Extended.launchDfxProject env dfxConfig st = (Ok tt, st2))
  ∧ (∀ e st2,
       Extended.start env dfxConfig picked
         (apply_step st
            (StepEmit (ShowQuickPick (Object_keys (canisters dfxConfig)))))
       = (Throw e, st2) →
       Extended.launchDfxProject env dfxConfig st
       = (Ok tt, apply_step st2 (StepEmit (UnhandledRejection e)))).
Proof.
  intros Hdefault Hcount Hanswer Hpicked.
  assert (Htruthy : truthy (Some picked) = true) by by destruct picked.
  assert (Hlean : ∀ start : string → M unit,
            (if negb (bool_decide (canister (config env) = EmptyString))
             then start (canister (config env))
             else match Object_keys (canisters dfxConfig) with
                  | [only] => start only
                  | _ =>
                      c <- showQuickPick env (Object_keys (canisters dfxConfig)) ;;
                      then_ c (fun c =>
                        match c with
                        | Some picked =>
                            if truthy c then start picked else ret tt
                        | None => ret tt
                        end)
                  end) st
            = match start picked
                      (apply_step st
                         (StepEmit
                            (ShowQuickPick (Object_keys (canisters dfxConfig)))))
              with
              | (Ok _, st2) => (Ok tt, st2)
              | (Throw e, st2) =>
                  (Ok tt, apply_step st2 (StepEmit (UnhandledRejection e)))
              end).
  { intros start. rewrite Hdefault. simpl negb. cbv iota.
    assert (Hbranch :
              (c <- showQuickPick env (Object_keys (canisters dfxConfig)) ;;
               then_ c (fun c =>
                 match c with
                 | Some picked => if truthy c then start picked else ret tt
                 | None => ret tt
                 end)) st
              = match start picked
                        (apply_step st
                           (StepEmit
                              (ShowQuickPick (Object_keys (canisters dfxConfig)))))
                with
                | (Ok _, st2) => (Ok tt, st2)
                | (Throw e, st2) =>
                    (Ok tt, apply_step st2 (StepEmit (UnhandledRejection e)))
                end).
    { unfold bind, showQuickPick, bind, emit, ret, then_, try_catch.
      cbn [fst snd]. rewrite Hanswer, Htruthy. unfold apply_step at 1.
      by destruct (start picked _) as [[[]|e] st2]. }
    by destruct (Object_keys (canisters dfxConfig)) as [|k1 [|k2 ks]]. }
  split; [| split].
  - intros found Hwhich. unfold Lean.launchDfxProject.
    rewrite (Hlean (Lean.start env)).
    by rewrite (Lean_start_found env _ found picked Hwhich).
  - intros st2 Hstart. unfold Extended.launchDfxProject.
    rewrite (Hlean (Extended.start env dfxConfig)). by rewrite Hstart.
  - intros e st2 Hstart. unfold Extended.launchDfxProject.
    rewrite (Hlean (Extended.start env dfxConfig)). by rewrite Hstart.
Qed.

Lemma picked_target_is_launched_witness :
  let env := World.host EmptyString (Some "assets") (Some "/usr/bin/dfx")
               SpawnFailed in
  let st := World.disk World.project_two in
  quickPickAnswer env (Object_keys (canisters World.two_targets)) = Some "assets"
  ∧ Lean.launchDfxProject env World.two_targets st
    = (Ok tt,
       apply_steps
         [StepEmit (ShowQuickPick ["main"; "assets"]);
          StepLaunch {| command := "/usr/bin/dfx";
                        args := ["_language-service"; "assets"] |}]
         st).
Proof.
  intros env st.
  assert (Hcount : length (Object_keys (canisters World.two_targets)) ≠ 1)
    by (simpl; lia).
  assert (Hpicked : "assets" ≠ EmptyString) by discriminate.
  split; [reflexivity |].
  exact (proj1 (picked_target_is_launched env World.two_targets st "assets"
                  eq_refl Hcount eq_refl Hpicked) "/usr/bin/dfx" eq_refl).
Defined.
